(** * EasyLib: the ldd wire-frame codec and the ldd::cage keeper

    A shallow embedding of
      - [src/ldd/net/internal/protocol.cc]  (Header and ExtHeader codecs),
      - [src/ldd/cage/internal/keeper_impl.cc]  (Keeper::Impl),
    followed by the properties the specification states about them.

    Buffers (pointers to [char]) are lists of bytes, a byte being a [Z] in [0, 256);
    fixed-width integers are [Z] with the wrap-around written out. *)

From Stdlib Require Import ZArith Lia.
From stdpp Require Import gmap strings list fin_maps.

Local Open Scope Z_scope.

(** ** Fixed-width integers and big-endian memory access *)

Definition u8 (x : Z) : Z := x mod 2 ^ 8.
Definition u16 (x : Z) : Z := x mod 2 ^ 16.
Definition u32 (x : Z) : Z := x mod 2 ^ 32.

(** a [uint8_t] store at [buf + off] *)
Definition store8 (buf : list Z) (off : nat) (v : Z) : list Z :=
  <[off := u8 v]> buf.

(** a [uint16_t] store of [htons(v)] at [buf + off]: whatever the host
    order, the most significant byte lands at the lowest address. *)
Definition store16_be (buf : list Z) (off : nat) (v : Z) : list Z :=
  <[S off := u8 v]> (<[off := u8 (Z.shiftr v 8)]> buf).

(** a [uint32_t] store of [htonl(v)] at [buf + off] *)
Definition store32_be (buf : list Z) (off : nat) (v : Z) : list Z :=
  <[S (S (S off)) := u8 v]>
    (<[S (S off) := u8 (Z.shiftr v 8)]>
       (<[S off := u8 (Z.shiftr v 16)]>
          (<[off := u8 (Z.shiftr v 24)]> buf))).

(** [buf[off]] read as an unsigned byte *)
Definition load8 (buf : list Z) (off : nat) : Z := buf !!! off.

(** [ntohs] of the [uint16_t] at [buf + off] *)
Definition load16_be (buf : list Z) (off : nat) : Z :=
  Z.lor (Z.shiftl (buf !!! off) 8) (buf !!! S off).

(** [ntohl] of the [uint32_t] at [buf + off] *)
Definition load32_be (buf : list Z) (off : nat) : Z :=
  Z.lor (Z.shiftl (buf !!! off) 24)
    (Z.lor (Z.shiftl (buf !!! S off) 16)
       (Z.lor (Z.shiftl (buf !!! S (S off)) 8) (buf !!! S (S (S off))))).

(** Every byte of the buffer is a [char] value seen as unsigned. *)
Definition bytes_ok (buf : list Z) : Prop := Forall (fun b => 0 <= b < 256) buf.

(** ** [boost::crc_ccitt_type]

    [boost::crc_optimal<16, 0x1021, 0xFFFF, 0, false, false>]: truncated
    polynomial 0x1021, initial remainder 0xFFFF, no final xor, input and
    remainder not reflected.  One message bit is one shift of the 16-bit
    remainder, a byte is fed most significant bit first. *)
Module Crc.

Definition poly : Z := 0x1021.
Definition initial_remainder : Z := 0xFFFF.

Definition shift_bit (rem : Z) : Z :=
  if Z.testbit rem 15
  then Z.lxor (u16 (Z.shiftl rem 1)) poly
  else u16 (Z.shiftl rem 1).

Definition process_byte (rem byte : Z) : Z :=
  Nat.iter 8 shift_bit (Z.lxor rem (Z.shiftl byte 8)).

Definition process_bytes (rem : Z) (bytes : list Z) : Z :=
  fold_left process_byte bytes rem.

(** [result.process_bytes(p, n); result.checksum()] on a fresh computer *)
Definition checksum (bytes : list Z) : Z :=
  process_bytes initial_remainder bytes.

(** The remainder register holds 16 bits. *)
Definition rem_ok (r : Z) : Prop := 0 <= r < 65536.

(** The entry of the byte-wise lookup table for index [d]: the remainder a
    byte leaves in an empty register. *)
Definition table_entry (d : Z) : Z := Nat.iter 8 shift_bit (Z.shiftl d 8).

End Crc.

(** ** protocol.cc *)

Module Header.

(** Modelled from the spec: [Header::kByteSize] is declared in protocol.h,
    which is not among the sources; the header is "14 fixed bytes + 2
    trailing checksum bytes = 16 bytes total". *)
Definition kByteSize : nat := 16.

(** The decoded view of a header, as the six getters report it. *)
Record fields := Fields {
  f_type : Z;
  f_id : Z;
  f_body_type : Z;
  f_body_size : Z;
  f_ext_count : Z;
  f_ext_len : Z
}.

(** [Header::kMagic] is declared in protocol.h too; the codec below takes it
    as a parameter. *)
Module Parser.

Definition IsValid (kMagic : Z) (buf_ : list Z) : bool :=
  let byte := load8 buf_ 0 in
  if negb (byte =? kMagic) then false
  else
    let crc16_new := Crc.checksum (take 14 buf_) in
    let crc16_origin := load16_be buf_ (kByteSize - 2) in
    if negb (crc16_new =? crc16_origin) then false
    else true.

Definition type (buf_ : list Z) : Z := load8 buf_ 1.
Definition id (buf_ : list Z) : Z := load32_be buf_ 2.
Definition body_type (buf_ : list Z) : Z := load16_be buf_ 6.
Definition body_size (buf_ : list Z) : Z := Z.shiftr (load32_be buf_ 8) 8.
Definition ext_count (buf_ : list Z) : Z := load8 buf_ 11.
Definition ext_len (buf_ : list Z) : Z := load16_be buf_ 12.

(** All six getters at once. *)
Definition parse (buf_ : list Z) : fields :=
  Fields (type buf_) (id buf_) (body_type buf_) (body_size buf_)
         (ext_count buf_) (ext_len buf_).

End Parser.

Module Builder.

Definition Build (kMagic : Z) (buf_ : list Z) : list Z :=
  let buf1 := store8 buf_ 0 kMagic in
  let crc16 := Crc.checksum (take 14 buf1) in
  store16_be buf1 (kByteSize - 2) crc16.

Definition set_type (type : Z) (buf_ : list Z) : list Z :=
  store8 buf_ 1 type.

Definition set_id (id : Z) (buf_ : list Z) : list Z :=
  store32_be buf_ 2 (u32 id).

Definition set_body_type (body_type : Z) (buf_ : list Z) : list Z :=
  store16_be buf_ 6 (u16 body_type).

Definition set_body_size (body_size : Z) (buf_ : list Z) : list Z :=
  let x := load8 buf_ 11 in
  let buf1 := store32_be buf_ 8 (u32 (Z.shiftl (u32 body_size) 8)) in
  store8 buf1 11 x.

Definition set_ext_count (ext_count : Z) (buf_ : list Z) : list Z :=
  store8 buf_ 11 ext_count.

Definition set_ext_len (ext_len : Z) (buf_ : list Z) : list Z :=
  store16_be buf_ 12 (u16 ext_len).

(** One call of a setter, and a sequence of such calls in program order. *)
Inductive setter :=
| SetType (v : Z)
| SetId (v : Z)
| SetBodyType (v : Z)
| SetBodySize (v : Z)
| SetExtCount (v : Z)
| SetExtLen (v : Z).

Definition call (s : setter) (buf_ : list Z) : list Z :=
  match s with
  | SetType v => set_type v buf_
  | SetId v => set_id v buf_
  | SetBodyType v => set_body_type v buf_
  | SetBodySize v => set_body_size v buf_
  | SetExtCount v => set_ext_count v buf_
  | SetExtLen v => set_ext_len v buf_
  end.

Definition calls (ss : list setter) (buf_ : list Z) : list Z :=
  fold_left (fun b s => call s b) ss buf_.

(** The header field a setter writes. *)
Definition field (s : setter) : nat :=
  match s with
  | SetType _ => 0 | SetId _ => 1 | SetBodyType _ => 2
  | SetBodySize _ => 3 | SetExtCount _ => 4 | SetExtLen _ => 5
  end%nat.

(** The six setters, each called once with the field of [h]. *)
Definition setters_of (h : fields) : list setter :=
  [SetType (f_type h); SetId (f_id h); SetBodyType (f_body_type h);
   SetBodySize (f_body_size h); SetExtCount (f_ext_count h);
   SetExtLen (f_ext_len h)].

End Builder.

(** A header whose fields fit their wire widths. *)
Definition valid_fields (h : fields) : Prop :=
  0 <= f_type h < 2 ^ 8 /\
  0 <= f_id h < 2 ^ 32 /\
  0 <= f_body_type h < 2 ^ 16 /\
  0 <= f_body_size h < 2 ^ 24 /\
  0 <= f_ext_count h < 2 ^ 8 /\
  0 <= f_ext_len h < 2 ^ 16.

(** Bit [j] of byte [i] inverted. *)
Definition flip_bit (buf : list Z) (i : nat) (j : Z) : list Z :=
  <[i := Z.lxor (buf !!! i) (Z.shiftl 1 j)]> buf.

(** What a setter call means on the decoded view: its field takes the value,
    cut to the width the wire gives it. *)
Definition assign (s : Builder.setter) (h : fields) : fields :=
  match s with
  | Builder.SetType v =>
      Fields (u8 v) (f_id h) (f_body_type h) (f_body_size h)
             (f_ext_count h) (f_ext_len h)
  | Builder.SetId v =>
      Fields (f_type h) (u32 v) (f_body_type h) (f_body_size h)
             (f_ext_count h) (f_ext_len h)
  | Builder.SetBodyType v =>
      Fields (f_type h) (f_id h) (u16 v) (f_body_size h)
             (f_ext_count h) (f_ext_len h)
  | Builder.SetBodySize v =>
      Fields (f_type h) (f_id h) (f_body_type h) (v mod 2 ^ 24)
             (f_ext_count h) (f_ext_len h)
  | Builder.SetExtCount v =>
      Fields (f_type h) (f_id h) (f_body_type h) (f_body_size h)
             (u8 v) (f_ext_len h)
  | Builder.SetExtLen v =>
      Fields (f_type h) (f_id h) (f_body_type h) (f_body_size h)
             (f_ext_count h) (u16 v)
  end.

End Header.

Module ExtHeader.

(** Modelled from the spec: [ExtHeader::kUnitSize] is declared in
    protocol.h, which is not among the sources; extension fields are "each
    2 bytes (type, length)". *)
Definition kUnitSize : Z := 2.

(** A read of [*(ext_buf_ + pos)] as an unsigned byte; [None] when [pos]
    lies outside the modelled buffer. *)
Definition read (ext_buf_ : list Z) (pos : Z) : option Z :=
  if pos <? 0 then None else ext_buf_ !! Z.to_nat pos.

Module Parser.

Record t := Make { ext_count_ : Z; ext_buf_ : list Z }.

(** The constructor takes the count as a [uint8_t]. *)
Definition new (ext_count : Z) (buf : list Z) : t := Make (u8 ext_count) buf.

(** One round of the loop of [IsValid]: [len += ext_buf_[i * kUnitSize + 1]]
    on a [uint16_t] accumulator. *)
Definition IsValid_step (ext_buf_ : list Z) (acc : option Z) (i : Z)
  : option Z :=
  len ← acc;
  let pos := i * kUnitSize in
  b ← read ext_buf_ (pos + 1);
  Some (u16 (len + b)).

Definition IsValid (p : t) (ext_len : Z) : option bool :=
  len ← foldl (IsValid_step (ext_buf_ p)) (Some 0) (seqZ 0 (ext_count_ p));
  if negb (len =? u16 ext_len) then Some false else Some true.

(** What [GetExtItem] hands back: [NoItem] is the [false] return, which
    leaves both out-parameters untouched. *)
Inductive item := NoItem | Item (type len : Z).

Definition GetExtItem (p : t) (index : Z) : option item :=
  if index >? ext_count_ p then Some NoItem
  else
    let pos := index * kUnitSize in
    type ← read (ext_buf_ p) pos;
    len ← read (ext_buf_ p) (pos + 1);
    Some (Item type len).

End Parser.

(** The wire image of a list of (type, length) fields. *)
Definition encode (items : list (Z * Z)) : list Z :=
  flat_map (fun it => [it.1; it.2]) items.

Definition lengths_sum (items : list (Z * Z)) : Z :=
  foldr Z.add 0 (snd <$> items).

Definition items_ok (items : list (Z * Z)) : Prop :=
  Forall (fun it => 0 <= it.1 < 256 /\ 0 <= it.2 < 256) items.

(** A store of [static_cast<char>(v)] to [*(ext_buf_ + pos)]; [None] when
    [pos] lies outside the modelled buffer. *)
Definition write (ext_buf_ : list Z) (pos : Z) (v : Z) : option (list Z) :=
  if pos <? 0 then None
  else if (Z.to_nat pos <? length ext_buf_)%nat
       then Some (<[Z.to_nat pos := u8 v]> ext_buf_)
       else None.

Module Builder.

(** The type of [ext_count_] is declared in protocol.h, which is not among
    the sources; it is taken to be the [uint8_t] of the parser.  The
    properties below stay under 256 fields, where the width plays no
    part. *)
Record t := Make { ext_count_ : Z; ext_buf_ : list Z }.

Definition new (buf : list Z) : t := Make 0 buf.

Definition AddExtItem (type len : Z) (b : t) : option t :=
  let pos := ext_count_ b * kUnitSize in
  buf1 ← write (ext_buf_ b) pos type;
  buf2 ← write buf1 (pos + 1) len;
  Some (Make (u8 (ext_count_ b + 1)) buf2).

(** [AddExtItem] called for each field of a list, in order. *)
Definition add_items (items : list (Z * Z)) (b : t) : option t :=
  foldl (fun acc it => b ← acc; AddExtItem it.1 it.2 b) (Some b) items.

End Builder.

End ExtHeader.

(** ** keeper_impl.cc *)

Module Keeper.

(** Modelled from the spec: the [Status] class (its header is not among the
    sources) wraps the return code of the foreign session library, "a
    failure carrying a status code"; [ZOK], [ZBADARGUMENTS] and
    [ZINVALIDSTATE] have the values of zookeeper.h. *)
Definition Status := Z.
Definition ZOK : Z := 0.
Definition kBadArguments : Status := -8.
Definition kInvalidState : Status := -9.
Definition IsOk (s : Status) : bool := s =? ZOK.
Definition IsBadArguments (s : Status) : bool := s =? kBadArguments.

(** zookeeper.h *)
Definition ZOOKEEPER_WRITE : Z := 1.
Definition ZOOKEEPER_READ : Z := 2.

(** Function objects supplied by the caller (completion callbacks, watchers)
    and the objects the adapter only passes on are represented by
    identifiers.  A watcher may be the empty function. *)
Definition Callback := nat.
Definition NodeWatcher := option nat.
Definition ChildWatcher := option nat.

(** The foreign handle, as far as the adapter observes it: what
    [is_unrecoverable] answers for it. *)
Record zhandle_t := ZHandle { is_unrecoverable : Z }.

(** A step of a transaction: [MakeResult] fills the native step and returns
    the result slot. *)
Record Op := MkOp { op_zop : nat; op_result : nat }.
Definition MakeResult (op : Op) : nat * nat := (op_zop op, op_result op).

(** [CallbackWrapper::Impl<MultiResult>]: the expected count, the result
    slots and the user callback. *)
Record MultiWrapper := MkMulti {
  count : nat;
  results : list nat;
  multi_callback : Callback
}.

(** The submission functions of the foreign library with the arguments the
    adapter passes; the [bool] tells whether a watch function was given. *)
Inductive zoo_request :=
| zoo_add_auth (scheme cert : string)
| zoo_acreate (path value : string) (acls : list nat) (mode : Z)
| zoo_adelete (path : string) (version : Z)
| zoo_awexists (path : string) (watch : bool)
| zoo_awget (path : string) (watch : bool)
| zoo_aset (path value : string) (version : Z)
| zoo_aget_acl (path : string)
| zoo_aset_acl (path : string) (version : Z) (acls : list nat)
| zoo_awget_children (path : string) (watch : bool)
| zoo_awget_children2 (path : string) (watch : bool)
| zoo_amulti (n : nat) (zops : list (option nat)) (cb : MultiWrapper).

(** What an operation does to the outside, in program order. *)
Inductive action :=
| Invoke (callback : Callback) (failure : Status)
| ZooCall (req : zoo_request)
| ZooClose
| AsyncWait (fd events timeout : Z)
| Cancel.

Record Impl := MkImpl {
  zh_ : option zhandle_t;
  listener_ : option nat;
  node_watcher_ : gmap string (list NodeWatcher);
  child_watcher_ : gmap string (list ChildWatcher)
}.

Definition IsOpen (st : Impl) : bool :=
  match zh_ st with Some _ => true | None => false end.

(** [is_unrecoverable(zh_) != ZOK]; the library dereferences the handle, so
    there is no answer on a closed session. *)
Definition IsUnrecoverable (st : Impl) : option bool :=
  zh ← zh_ st; Some (negb (is_unrecoverable zh =? ZOK)).

Definition Close (st : Impl) : Impl * list action :=
  match zh_ st with
  | Some _ => (MkImpl None None ∅ ∅, [ZooClose; Cancel])
  | None => (st, [])
  end.

(** Lines 172-177, 199-204, 289-294 and 316-321: find the entry of [path],
    insert an empty one when there is none, and [push_back] the watcher. *)
Definition push_back_watcher {W} (path : string) (watcher : W)
    (m : gmap string (list W)) : gmap string (list W) :=
  let m1 := match m !! path with
            | None => <[path := []]> m
            | Some _ => m
            end in
  alter (fun ws => ws ++ [watcher]) path m1.

Definition has_watch (watcher : option nat) : bool :=
  match watcher with Some _ => true | None => false end.

(** *** Asynchronous operations

    Each takes, besides the arguments of the C++ method, the code [rc] the
    foreign submission function answers with (it is consulted only when the
    call is reached), and gives the state after the call and what was done.
    [Invoke callback s] is [callback(FailureResult<R>(s))]. *)

Definition AddAuth (scheme cert : string) (callback : Callback)
    (rc : Status) (st : Impl) : Impl * list action :=
  if negb (IsOpen st) then (st, [Invoke callback kInvalidState])
  else
    let s := rc in
    if IsOk s then (st, [ZooCall (zoo_add_auth scheme cert)])
    else (st, [ZooCall (zoo_add_auth scheme cert); Invoke callback s]).

Definition Create (path value : string) (acls : list nat) (mode : Z)
    (callback : Callback) (rc : Status) (st : Impl) : Impl * list action :=
  if negb (IsOpen st) then (st, [Invoke callback kInvalidState])
  else
    let s := rc in
    if IsOk s then (st, [ZooCall (zoo_acreate path value acls mode)])
    else (st, [ZooCall (zoo_acreate path value acls mode); Invoke callback s]).

Definition Delete (path : string) (version : Z) (callback : Callback)
    (rc : Status) (st : Impl) : Impl * list action :=
  if negb (IsOpen st) then (st, [Invoke callback kInvalidState])
  else
    let s := rc in
    if IsOk s then (st, [ZooCall (zoo_adelete path version)])
    else (st, [ZooCall (zoo_adelete path version); Invoke callback s]).

Definition Exists (path : string) (watcher : NodeWatcher)
    (callback : Callback) (rc : Status) (st : Impl) : Impl * list action :=
  if negb (IsOpen st) then (st, [Invoke callback kInvalidState])
  else
    let s := rc in
    if IsOk s then
      (MkImpl (zh_ st) (listener_ st)
              (push_back_watcher path watcher (node_watcher_ st))
              (child_watcher_ st),
       [ZooCall (zoo_awexists path (has_watch watcher))])
    else (st, [ZooCall (zoo_awexists path (has_watch watcher));
               Invoke callback s]).

Definition Get (path : string) (watcher : NodeWatcher)
    (callback : Callback) (rc : Status) (st : Impl) : Impl * list action :=
  if negb (IsOpen st) then (st, [Invoke callback kInvalidState])
  else
    let s := rc in
    if IsOk s then
      (MkImpl (zh_ st) (listener_ st)
              (push_back_watcher path watcher (node_watcher_ st))
              (child_watcher_ st),
       [ZooCall (zoo_awget path (has_watch watcher))])
    else (st, [ZooCall (zoo_awget path (has_watch watcher));
               Invoke callback s]).

(** [Keeper::Impl::Set]; [Set] is reserved. *)
Definition Set_ (path value : string) (version : Z) (callback : Callback)
    (rc : Status) (st : Impl) : Impl * list action :=
  if negb (IsOpen st) then (st, [Invoke callback kInvalidState])
  else
    let s := rc in
    if IsOk s then (st, [ZooCall (zoo_aset path value version)])
    else (st, [ZooCall (zoo_aset path value version); Invoke callback s]).

Definition GetAcl (path : string) (callback : Callback)
    (rc : Status) (st : Impl) : Impl * list action :=
  if negb (IsOpen st) then (st, [Invoke callback kInvalidState])
  else
    let s := rc in
    if IsOk s then (st, [ZooCall (zoo_aget_acl path)])
    else (st, [ZooCall (zoo_aget_acl path); Invoke callback s]).

Definition SetAcl (path : string) (acls : list nat) (version : Z)
    (callback : Callback) (rc : Status) (st : Impl) : Impl * list action :=
  if negb (IsOpen st) then (st, [Invoke callback kInvalidState])
  else
    let s := rc in
    if IsOk s then (st, [ZooCall (zoo_aset_acl path version acls)])
    else (st, [ZooCall (zoo_aset_acl path version acls); Invoke callback s]).

Definition GetChildren (path : string) (watcher : ChildWatcher)
    (callback : Callback) (rc : Status) (st : Impl) : Impl * list action :=
  if negb (IsOpen st) then (st, [Invoke callback kInvalidState])
  else
    let s := rc in
    if IsOk s then
      (MkImpl (zh_ st) (listener_ st) (node_watcher_ st)
              (push_back_watcher path watcher (child_watcher_ st)),
       [ZooCall (zoo_awget_children path (has_watch watcher))])
    else (st, [ZooCall (zoo_awget_children path (has_watch watcher));
               Invoke callback s]).

Definition GetChildrenWithStat (path : string) (watcher : ChildWatcher)
    (callback : Callback) (rc : Status) (st : Impl) : Impl * list action :=
  if negb (IsOpen st) then (st, [Invoke callback kInvalidState])
  else
    let s := rc in
    if IsOk s then
      (MkImpl (zh_ st) (listener_ st) (node_watcher_ st)
              (push_back_watcher path watcher (child_watcher_ st)),
       [ZooCall (zoo_awget_children2 path (has_watch watcher))])
    else (st, [ZooCall (zoo_awget_children2 path (has_watch watcher));
               Invoke callback s]).

(** One round of the loop of [Multi]: [MakeResult(&zops[idx])], then
    [results().push_back(result)], then [++idx]. *)
Definition Multi_step (acc : nat * list (option nat) * MultiWrapper)
    (op : Op) : nat * list (option nat) * MultiWrapper :=
  let '(idx, zops, cb) := acc in
  let '(zop, result) := MakeResult op in
  (S idx, <[idx := Some zop]> zops,
   MkMulti (count cb) (results cb ++ [result]) (multi_callback cb)).

(** Modelled from the spec: the constructor of the wrapper (in
    callback_wrapper.h, not among the sources) records the expected count
    and starts with no result slot ("appends a corresponding result slot to
    a shared, count-checked result accumulator").  [None] is the process
    stopped by [CHECK_EQ]. *)
Definition Multi (ops : list Op) (callback : Callback)
    (rc : Status) (st : Impl) : option (Impl * list action) :=
  if negb (IsOpen st) then Some (st, [Invoke callback kInvalidState])
  else
    let cb0 := MkMulti (length ops) [] callback in
    let zops0 := replicate (length ops) None in
    let '(_, zops, cb) := foldl Multi_step (0%nat, zops0, cb0) ops in
    if negb (length (results cb) =? count cb)%nat then None
    else
      let s := rc in
      if IsOk s then Some (st, [ZooCall (zoo_amulti (length ops) zops cb)])
      else Some (st, [ZooCall (zoo_amulti (length ops) zops cb);
                      Invoke callback s]).

(** A call of one of the eleven operations. *)
Inductive operation :=
| OpAddAuth (scheme cert : string) (callback : Callback)
| OpCreate (path value : string) (acls : list nat) (mode : Z)
           (callback : Callback)
| OpDelete (path : string) (version : Z) (callback : Callback)
| OpExists (path : string) (watcher : NodeWatcher) (callback : Callback)
| OpGet (path : string) (watcher : NodeWatcher) (callback : Callback)
| OpSet (path value : string) (version : Z) (callback : Callback)
| OpGetAcl (path : string) (callback : Callback)
| OpSetAcl (path : string) (acls : list nat) (version : Z)
           (callback : Callback)
| OpGetChildren (path : string) (watcher : ChildWatcher)
                (callback : Callback)
| OpGetChildrenWithStat (path : string) (watcher : ChildWatcher)
                        (callback : Callback)
| OpMulti (ops : list Op) (callback : Callback).

Definition callback_of (o : operation) : Callback :=
  match o with
  | OpAddAuth _ _ cb | OpCreate _ _ _ _ cb | OpDelete _ _ cb
  | OpExists _ _ cb | OpGet _ _ cb | OpSet _ _ _ cb | OpGetAcl _ cb
  | OpSetAcl _ _ _ cb | OpGetChildren _ _ cb
  | OpGetChildrenWithStat _ _ cb | OpMulti _ cb => cb
  end.

Definition run (o : operation) (rc : Status) (st : Impl)
  : option (Impl * list action) :=
  match o with
  | OpAddAuth scheme cert cb => Some (AddAuth scheme cert cb rc st)
  | OpCreate path value acls mode cb =>
      Some (Create path value acls mode cb rc st)
  | OpDelete path version cb => Some (Delete path version cb rc st)
  | OpExists path w cb => Some (Exists path w cb rc st)
  | OpGet path w cb => Some (Get path w cb rc st)
  | OpSet path value version cb => Some (Set_ path value version cb rc st)
  | OpGetAcl path cb => Some (GetAcl path cb rc st)
  | OpSetAcl path acls version cb => Some (SetAcl path acls version cb rc st)
  | OpGetChildren path w cb => Some (GetChildren path w cb rc st)
  | OpGetChildrenWithStat path w cb =>
      Some (GetChildrenWithStat path w cb rc st)
  | OpMulti ops cb => Multi ops cb rc st
  end.

(** The user callbacks invoked during a call, in order. *)
Definition invocations (tr : list action) : list (Callback * Status) :=
  omap (fun a => match a with Invoke cb s => Some (cb, s) | _ => None end) tr.

(** *** The interest/process loop *)

(** What [zookeeper_interest] answers: its code, the values it leaves in
    [*fd] and [*interest], and the timeout (in milliseconds). *)
Record interest_reply := InterestReply {
  ir_status : Status;
  ir_fd : Z;
  ir_interest : Z;
  ir_tv : Z
}.

(** What [zookeeper_process] answers.  The library runs completions and
    watch functions inside the call, and those may call back into the
    adapter ([Close], further operations): the reply carries the code and
    the adapter as it is when the call returns. *)
Record process_reply := ProcessReply {
  pr_status : Status;
  pr_after : Impl
}.

(** The out-parameters are passed in and handed back. *)
Definition Interest (fd interest timeout : Z) (reply : interest_reply)
    (st : Impl) : Status * (Z * Z * Z) :=
  if negb (IsOpen st) then (kInvalidState, (fd, interest, timeout))
  else
    let s := ir_status reply in
    (s, (ir_fd reply, ir_interest reply,
         if IsOk s then ir_tv reply else timeout)).

Definition Process (events : Z) (reply : process_reply) (st : Impl)
  : Status * Impl :=
  if negb (IsOpen st) then (kInvalidState, st)
  else (pr_status reply, pr_after reply).

Section Reactor.

(** [ldd::net::FdEvent::kReadable] and [kWritable], declared outside the
    sources. *)
Variables kReadable kWritable : Z.

(** [None] is the process stopped by a failed [CHECK]; a default-constructed
    [TimeDiff] is zero. *)
Definition UpdateEvent (reply : interest_reply) (st : Impl)
  : option (list action) :=
  let '(s, (fd, interest, timeout)) := Interest (-1) 0 0 reply st in
  let zkevents := 0 in
  timeout ←
    (if IsOk s then Some timeout
     else if IsBadArguments s then None
     else Some (if timeout =? 0 then 100 else timeout));
  let zkevents :=
    if negb (Z.land interest ZOOKEEPER_READ =? 0)
    then Z.lor zkevents kReadable else zkevents in
  let zkevents :=
    if negb (Z.land interest ZOOKEEPER_WRITE =? 0)
    then Z.lor zkevents kWritable else zkevents in
  Some [AsyncWait fd zkevents timeout].

Definition HandleEvent (events : Z) (preply : process_reply)
    (ireply : interest_reply) (st : Impl) : option (Impl * list action) :=
  let interest := 0 in
  let interest :=
    if negb (Z.land events kReadable =? 0)
    then Z.lor interest ZOOKEEPER_READ else interest in
  let interest :=
    if negb (Z.land events kWritable =? 0)
    then Z.lor interest ZOOKEEPER_WRITE else interest in
  let '(s, st1) := Process interest preply st in
  if negb (IsOk s) && IsBadArguments s then None
  else if IsOpen st1 then
    unrecoverable ← IsUnrecoverable st1;
    if negb unrecoverable then
      tr ← UpdateEvent ireply st1; Some (st1, tr)
    else Some (st1, [])
  else Some (st1, []).

(** The trace arms a reactor wait. *)
Definition arms (tr : list action) : Prop :=
  exists fd events timeout, AsyncWait fd events timeout ∈ tr.

(** The rule of the loop: [HandleEvent] returns, and it has armed a wait
    exactly when the session is then open and not unrecoverable. *)
Definition rearm_rule (events : Z) (preply : process_reply)
    (ireply : interest_reply) (st : Impl) : Prop :=
  exists st1 tr,
    HandleEvent events preply ireply st = Some (st1, tr) /\
    (arms tr <-> IsOpen st1 = true /\ IsUnrecoverable st1 = Some false).

End Reactor.

(** The constructor: no handle, the given listener, no watcher. *)
Definition new (listener : option nat) : Impl := MkImpl None listener ∅ ∅.

(** errno.h *)
Definition ENOMEM : Z := 12.

(** What [zookeeper_init] answers: the handle, or none with [errno] set. *)
Record init_reply := InitReply {
  init_zh : option zhandle_t;
  init_errno : Z
}.

(** [None] is the process stopped by a failed [CHECK] or by [LOG(FATAL)];
    otherwise the state, the returned [bool] and what was asked of the
    reactor.  [ireply] answers the interest query of [UpdateEvent]. *)
Definition Open (kReadable kWritable : Z) (dest : string) (timeout : Z)
    (reply : init_reply) (ireply : interest_reply) (st : Impl)
  : option (Impl * bool * list action) :=
  if IsOpen st then None
  else if timeout <? 0 then None
  else
    match init_zh reply with
    | Some zh =>
        let st1 := MkImpl (Some zh) (listener_ st) (node_watcher_ st)
                     (child_watcher_ st) in
        tr ← UpdateEvent kReadable kWritable ireply st1;
        Some (st1, true, tr)
    | None =>
        if negb (init_errno reply =? 0) && negb (init_errno reply =? ENOMEM)
        then Some (st, false, [])
        else None
    end.

(** A sequence of operation calls, each with the answer of its submission,
    run one after the other. *)
Definition run_all (calls : list (operation * Status)) (st : Impl)
  : option (Impl * list action) :=
  foldl (fun acc c =>
           '(st1, tr) ← acc;
           '(st2, tr') ← run c.1 c.2 st1;
           Some (st2, tr ++ tr'))
        (Some (st, [])) calls.

(** The watcher a call registers for [path], if any: the one given to an
    accepted [Exists] or [Get], resp. [GetChildren] or
    [GetChildrenWithStat], on that path. *)
Definition node_watch_of (path : string) (c : operation * Status)
  : list NodeWatcher :=
  match c.1 with
  | OpExists p w _ | OpGet p w _ =>
      if IsOk c.2 && bool_decide (p = path) then [w] else []
  | _ => []
  end.

Definition child_watch_of (path : string) (c : operation * Status)
  : list ChildWatcher :=
  match c.1 with
  | OpGetChildren p w _ | OpGetChildrenWithStat p w _ =>
      if IsOk c.2 && bool_decide (p = path) then [w] else []
  | _ => []
  end.

(** The foreign submissions in a trace. *)
Definition submissions (tr : list action) : list zoo_request :=
  omap (fun a => match a with ZooCall req => Some req | _ => None end) tr.

(** The calls whose submission was refused, each with its callback and the
    code it was refused with. *)
Definition refused (calls : list (operation * Status))
  : list (Callback * Status) :=
  omap (fun c => if IsOk c.2 then None else Some (callback_of c.1, c.2))
       calls.

(** A closed adapter holds no watcher. *)
Definition closed_empty (st : Impl) : Prop :=
  IsOpen st = false -> node_watcher_ st = ∅ /\ child_watcher_ st = ∅.

End Keeper.

(** * Properties *)

(** ** Bytes and words *)

Lemma u8_range x : 0 <= u8 x < 256.
Proof. unfold u8. apply Z.mod_pos_bound. lia. Qed.

Lemma u8_id x : 0 <= x < 256 -> u8 x = x.
Proof. intros H. unfold u8. apply Z.mod_small. lia. Qed.

Lemma u8_u8 x : u8 (u8 x) = u8 x.
Proof. apply u8_id, u8_range. Qed.

Lemma u16_range x : 0 <= u16 x < 65536.
Proof. unfold u16. apply Z.mod_pos_bound. lia. Qed.

Lemma u16_id x : 0 <= x < 65536 -> u16 x = x.
Proof. intros H. unfold u16. apply Z.mod_small. lia. Qed.

Lemma u16_add_l a b : u16 (u16 a + b) = u16 (a + b).
Proof. unfold u16. apply Zplus_mod_idemp_l. Qed.

Lemma u32_id x : 0 <= x < 4294967296 -> u32 x = x.
Proof. intros H. unfold u32. apply Z.mod_small. lia. Qed.

Lemma land_shiftl_low a b n :
  0 <= n -> 0 <= b < 2 ^ n -> Z.land (Z.shiftl a n) b = 0.
Proof.
  intros Hn Hb. apply Z.bits_inj'; intros m Hm.
  rewrite Z.land_spec, Z.bits_0.
  destruct (Z.lt_ge_cases m n) as [Hlt|Hge].
  - rewrite Z.shiftl_spec_low by lia. reflexivity.
  - destruct (Z.eq_dec b 0) as [->|Hb0].
    + rewrite Z.bits_0. apply andb_false_r.
    + rewrite (Z.bits_above_log2 b m), andb_false_r; [reflexivity|lia|].
      assert (Z.log2 b < n) by (apply Z.log2_lt_pow2; lia). lia.
Qed.

(** Or-ing a byte under a shifted value is an addition. *)
Lemma lor_shiftl_add a b n :
  0 <= n -> 0 <= b < 2 ^ n -> Z.lor (Z.shiftl a n) b = a * 2 ^ n + b.
Proof.
  intros Hn Hb.
  rewrite <- Z.shiftl_mul_pow2 by lia.
  rewrite <- Z.lxor_lor, <- Z.add_nocarry_lxor; trivial.
  all: apply land_shiftl_low; trivial.
Qed.

Lemma be16_value b0 b1 :
  0 <= b1 < 256 -> Z.lor (Z.shiftl b0 8) b1 = b0 * 256 + b1.
Proof. intros. apply (lor_shiftl_add b0 b1 8); lia. Qed.

Lemma be32_value b0 b1 b2 b3 :
  0 <= b1 < 256 -> 0 <= b2 < 256 -> 0 <= b3 < 256 ->
  Z.lor (Z.shiftl b0 24) (Z.lor (Z.shiftl b1 16) (Z.lor (Z.shiftl b2 8) b3))
  = b0 * 16777216 + b1 * 65536 + b2 * 256 + b3.
Proof.
  intros. rewrite (lor_shiftl_add b2 b3 8) by lia.
  rewrite (lor_shiftl_add b1 _ 16) by lia.
  rewrite (lor_shiftl_add b0 _ 24) by lia. lia.
Qed.

Lemma split16 v :
  0 <= v < 65536 -> u8 (Z.shiftr v 8) * 256 + u8 v = v.
Proof.
  intros. unfold u8. rewrite Z.shiftr_div_pow2 by lia.
  change (2 ^ 8) with 256. Z.div_mod_to_equations. lia.
Qed.

Lemma split32 v :
  0 <= v < 4294967296 ->
  u8 (Z.shiftr v 24) * 16777216 + u8 (Z.shiftr v 16) * 65536
  + u8 (Z.shiftr v 8) * 256 + u8 v = v.
Proof.
  intros. unfold u8. rewrite !Z.shiftr_div_pow2 by lia.
  change (2 ^ 8) with 256. change (2 ^ 16) with 65536.
  change (2 ^ 24) with 16777216.
  Z.div_mod_to_equations. lia.
Qed.

(** What [ntohs] reads back from the two bytes [htons] stored. *)
Lemma load16_store16 v b0 b1 :
  0 <= v < 65536 -> b0 = u8 (Z.shiftr v 8) -> b1 = u8 v ->
  Z.lor (Z.shiftl b0 8) b1 = v.
Proof.
  intros Hv -> ->. rewrite be16_value by apply u8_range. by apply split16.
Qed.

Lemma load32_store32 v b0 b1 b2 b3 :
  0 <= v < 4294967296 ->
  b0 = u8 (Z.shiftr v 24) -> b1 = u8 (Z.shiftr v 16) ->
  b2 = u8 (Z.shiftr v 8) -> b3 = u8 v ->
  Z.lor (Z.shiftl b0 24) (Z.lor (Z.shiftl b1 16) (Z.lor (Z.shiftl b2 8) b3))
  = v.
Proof.
  intros Hv -> -> -> ->. rewrite be32_value by apply u8_range.
  by apply split32.
Qed.

(** The 24-bit size comes back from bytes 8..10 whatever byte 11 holds. *)
Lemma body_size_value n c :
  0 <= n < 16777216 -> 0 <= c < 256 ->
  let v := u32 (Z.shiftl (u32 n) 8) in
  Z.shiftr
    (Z.lor (Z.shiftl (u8 (Z.shiftr v 24)) 24)
       (Z.lor (Z.shiftl (u8 (Z.shiftr v 16)) 16)
          (Z.lor (Z.shiftl (u8 (Z.shiftr v 8)) 8) c))) 8 = n.
Proof.
  intros Hn Hc v.
  assert (Hv : v = n * 256).
  { unfold v. rewrite (u32_id n) by lia.
    rewrite Z.shiftl_mul_pow2 by lia. apply u32_id. lia. }
  rewrite be32_value by (apply u8_range || exact Hc).
  rewrite Hv, Z.shiftr_div_pow2 by lia. unfold u8.
  rewrite !Z.shiftr_div_pow2 by lia.
  change (2 ^ 8) with 256. change (2 ^ 16) with 65536.
  change (2 ^ 24) with 16777216.
  Z.div_mod_to_equations. lia.
Qed.

Lemma lxor_range a b n :
  0 < n -> 0 <= a < 2 ^ n -> 0 <= b < 2 ^ n -> 0 <= Z.lxor a b < 2 ^ n.
Proof.
  intros Hn Ha Hb.
  assert (Hnn : 0 <= Z.lxor a b) by (apply Z.lxor_nonneg; lia).
  split; [exact Hnn|].
  destruct (Z.eq_dec (Z.lxor a b) 0) as [->|Hne]; [lia|].
  apply Z.log2_lt_pow2; [lia|].
  eapply Z.le_lt_trans; [apply Z.log2_lxor; lia|].
  apply Z.max_lub_lt.
  - destruct (Z.eq_dec a 0) as [->|]; [simpl; lia|apply Z.log2_lt_pow2; lia].
  - destruct (Z.eq_dec b 0) as [->|]; [simpl; lia|apply Z.log2_lt_pow2; lia].
Qed.

Lemma lxor_lxor_r a c : Z.lxor (Z.lxor a c) c = a.
Proof. by rewrite Z.lxor_assoc, Z.lxor_nilpotent, Z.lxor_0_r. Qed.

Lemma lxor_inj_r a b c : Z.lxor a c = Z.lxor b c -> a = b.
Proof.
  intros H. rewrite <- (lxor_lxor_r a c), H. apply lxor_lxor_r.
Qed.

Lemma lxor_inj_l a b c : Z.lxor c a = Z.lxor c b -> a = b.
Proof. rewrite !(Z.lxor_comm c). apply lxor_inj_r. Qed.

(** ** The checksum

    The register update is a bijection of the 16-bit remainders (the
    polynomial has its constant term), so a change of one byte always shows
    in the checksum. *)

Module CrcFacts.
Import Crc.

Example check_value :
  checksum [49; 50; 51; 52; 53; 54; 55; 56; 57] = 0x29B1.
Proof. vm_compute. reflexivity. Qed.

Lemma shift_bit_range r : rem_ok (shift_bit r).
Proof.
  unfold shift_bit, rem_ok, poly.
  destruct (Z.testbit r 15); [|apply u16_range].
  apply (lxor_range _ _ 16); [lia|apply u16_range|lia].
Qed.

Lemma testbit15 r : rem_ok r -> Z.testbit r 15 = (32768 <=? r).
Proof.
  intros Hr. unfold rem_ok in Hr.
  destruct (Z.leb_spec 32768 r).
  - apply Z.testbit_true; [lia|]. change (2 ^ 15) with 32768.
    Z.div_mod_to_equations. lia.
  - apply Z.testbit_false; [lia|]. change (2 ^ 15) with 32768.
    Z.div_mod_to_equations. lia.
Qed.

Lemma u16_shiftl1 r :
  rem_ok r ->
  u16 (Z.shiftl r 1) = if 32768 <=? r then 2 * r - 65536 else 2 * r.
Proof.
  intros Hr. unfold rem_ok in Hr. unfold u16.
  rewrite Z.shiftl_mul_pow2 by lia. change (2 ^ 1) with 2.
  change (2 ^ 16) with 65536.
  destruct (Z.leb_spec 32768 r); Z.div_mod_to_equations; lia.
Qed.

Lemma odd_lxor_poly a : Z.odd (Z.lxor a poly) = negb (Z.odd a).
Proof.
  rewrite <- !Z.bit0_odd, Z.lxor_spec. unfold poly.
  change (Z.testbit 4129 0) with true. apply xorb_true_r.
Qed.

Lemma shift_bit_inj r1 r2 :
  rem_ok r1 -> rem_ok r2 -> shift_bit r1 = shift_bit r2 -> r1 = r2.
Proof.
  intros H1 H2. unfold shift_bit.
  rewrite !testbit15, !u16_shiftl1 by assumption.
  destruct (Z.leb_spec 32768 r1), (Z.leb_spec 32768 r2); intros Heq.
  - apply lxor_inj_r in Heq. lia.
  - apply (f_equal Z.odd) in Heq. rewrite odd_lxor_poly in Heq.
    replace (2 * r1 - 65536) with (2 * (r1 - 32768)) in Heq by lia.
    rewrite !Z.odd_mul in Heq. discriminate.
  - apply (f_equal Z.odd) in Heq. rewrite odd_lxor_poly in Heq.
    replace (2 * r2 - 65536) with (2 * (r2 - 32768)) in Heq by lia.
    rewrite !Z.odd_mul in Heq. discriminate.
  - lia.
Qed.

Lemma iter_shift_bit_range n r : rem_ok r -> rem_ok (Nat.iter n shift_bit r).
Proof. intros Hr. destruct n; [exact Hr|apply shift_bit_range]. Qed.

Lemma iter_shift_bit_inj n r1 r2 :
  rem_ok r1 -> rem_ok r2 ->
  Nat.iter n shift_bit r1 = Nat.iter n shift_bit r2 -> r1 = r2.
Proof.
  intros H1 H2. induction n as [|n IH]; [trivial|].
  cbn [Nat.iter]. intros Heq. apply IH.
  apply shift_bit_inj; trivial; by apply iter_shift_bit_range.
Qed.

Lemma feed_range r b :
  rem_ok r -> 0 <= b < 256 -> rem_ok (Z.lxor r (Z.shiftl b 8)).
Proof.
  intros Hr Hb. apply (lxor_range _ _ 16); [lia|exact Hr|].
  rewrite Z.shiftl_mul_pow2 by lia. lia.
Qed.

Lemma process_byte_range r b : rem_ok (process_byte r b).
Proof. apply shift_bit_range. Qed.

Lemma process_byte_inj_rem r1 r2 b :
  rem_ok r1 -> rem_ok r2 -> 0 <= b < 256 ->
  process_byte r1 b = process_byte r2 b -> r1 = r2.
Proof.
  intros H1 H2 Hb Heq.
  apply iter_shift_bit_inj in Heq; [|by apply feed_range..].
  by apply lxor_inj_r in Heq.
Qed.

Lemma process_byte_inj_byte r b1 b2 :
  rem_ok r -> 0 <= b1 < 256 -> 0 <= b2 < 256 ->
  process_byte r b1 = process_byte r b2 -> b1 = b2.
Proof.
  intros Hr H1 H2 Heq.
  apply iter_shift_bit_inj in Heq; [|by apply feed_range..].
  apply lxor_inj_l in Heq.
  rewrite !Z.shiftl_mul_pow2 in Heq by lia. lia.
Qed.

Lemma process_bytes_range r bs : rem_ok r -> rem_ok (process_bytes r bs).
Proof.
  revert r. induction bs as [|b bs IH]; intros r Hr; [exact Hr|].
  apply IH, process_byte_range.
Qed.

Lemma process_bytes_inj r1 r2 bs :
  rem_ok r1 -> rem_ok r2 -> bytes_ok bs ->
  process_bytes r1 bs = process_bytes r2 bs -> r1 = r2.
Proof.
  intros H1 H2 Hbs. revert r1 r2 H1 H2.
  induction Hbs as [|b bs Hb Hbs IH]; intros r1 r2 H1 H2 Heq; [exact Heq|].
  cbn in Heq. apply IH in Heq; [|apply process_byte_range..].
  by apply process_byte_inj_rem in Heq.
Qed.

Lemma checksum_range bs : 0 <= checksum bs < 65536.
Proof. apply process_bytes_range. unfold rem_ok, initial_remainder. lia. Qed.

(** Two messages that differ in exactly one byte have different checksums. *)
Lemma checksum_one_byte l1 b b' l2 :
  bytes_ok l1 -> bytes_ok l2 -> 0 <= b < 256 -> 0 <= b' < 256 -> b <> b' ->
  checksum (l1 ++ b :: l2) <> checksum (l1 ++ b' :: l2).
Proof.
  intros Hl1 Hl2 Hb Hb' Hne Heq. apply Hne.
  unfold checksum, process_bytes in Heq.
  rewrite !fold_left_app in Heq. cbn [fold_left] in Heq.
  apply (process_bytes_inj _ _ l2) in Heq;
    [|apply process_byte_range..|exact Hl2].
  apply process_byte_inj_byte in Heq; trivial.
  apply (process_bytes_range _ l1). unfold rem_ok, initial_remainder. lia.
Qed.

End CrcFacts.

(** ** The header codec *)

Module HeaderFacts.
Import Header.

(** The codec touches the first 16 bytes only: name them. *)
Ltac destruct_buf buf H :=
  do 16 (destruct buf as [|? buf]; [simpl in H; lia|]); clear H.

Ltac buf_simpl :=
  cbv [Builder.call Builder.set_type Builder.set_id Builder.set_body_type
       Builder.set_body_size Builder.set_ext_count Builder.set_ext_len
       Builder.Build kByteSize
       Parser.type Parser.id Parser.body_type Parser.body_size
       Parser.ext_count Parser.ext_len Parser.parse
       store8 store16_be store32_be load8 load16_be load32_be
       insert list_insert lookup_total list_lookup_total Nat.sub firstn].

Lemma call_length s (buf : list Z) :
  length (Builder.call s buf) = length buf.
Proof.
  destruct s; cbv [Builder.call Builder.set_type Builder.set_id
    Builder.set_body_type Builder.set_body_size Builder.set_ext_count
    Builder.set_ext_len store8 store16_be store32_be];
    rewrite ?length_insert; reflexivity.
Qed.

(** Setters of different fields can be called in either order. *)
Lemma call_comm s1 s2 (buf : list Z) :
  Builder.field s1 <> Builder.field s2 -> (16 <= length buf)%nat ->
  Builder.call s1 (Builder.call s2 buf)
  = Builder.call s2 (Builder.call s1 buf).
Proof.
  intros Hf H. destruct_buf buf H.
  destruct s1, s2; try (exfalso; apply Hf; reflexivity);
    buf_simpl; rewrite ?u8_u8; reflexivity.
Qed.

Lemma calls_perm ss ss' (buf : list Z) :
  ss ≡ₚ ss' -> NoDup (Builder.field <$> ss) -> (16 <= length buf)%nat ->
  Builder.calls ss buf = Builder.calls ss' buf.
Proof.
  intros Hp. revert buf.
  induction Hp as [|x l l' Hp IH|x y l|l l' l'' Hp1 IH1 Hp2 IH2];
    intros buf Hnd Hlen.
  - reflexivity.
  - cbn. apply IH.
    + rewrite fmap_cons in Hnd. by apply NoDup_cons in Hnd as [_ ?].
    + by rewrite call_length.
  - cbn. rewrite call_comm; [reflexivity| |assumption].
    rewrite !fmap_cons in Hnd. apply NoDup_cons in Hnd as [Hy _].
    intros Heq. apply Hy. rewrite Heq. left.
  - rewrite IH1 by assumption. apply IH2; [|assumption].
    by rewrite <- Hp1.
Qed.

Lemma Build_length kMagic (buf : list Z) :
  length (Builder.Build kMagic buf) = length buf.
Proof.
  unfold Builder.Build, store16_be, store8. by rewrite !length_insert.
Qed.

Lemma Build_bytes_ok kMagic (buf : list Z) :
  bytes_ok buf -> bytes_ok (Builder.Build kMagic buf).
Proof.
  intros H. unfold Builder.Build, store16_be, store8, bytes_ok.
  repeat apply Forall_insert; trivial; apply u8_range.
Qed.

(** [Build] leaves what the getters read alone. *)
Lemma parse_Build kMagic (buf : list Z) :
  (16 <= length buf)%nat ->
  Parser.parse (Builder.Build kMagic buf) = Parser.parse buf.
Proof. intros H. destruct_buf buf H. reflexivity. Qed.

Lemma Build_magic kMagic (buf : list Z) :
  (16 <= length buf)%nat -> Builder.Build kMagic buf !!! 0%nat = u8 kMagic.
Proof. intros H. destruct_buf buf H. reflexivity. Qed.

(** The trailer of a built frame is the checksum of its first 14 bytes. *)
Lemma Build_stored_checksum kMagic (buf : list Z) :
  (16 <= length buf)%nat ->
  load16_be (Builder.Build kMagic buf) 14 =
  Crc.checksum (take 14 (Builder.Build kMagic buf)).
Proof.
  intros H. destruct_buf buf H. buf_simpl.
  by rewrite (load16_store16 _ _ _ (CrcFacts.checksum_range _)
                eq_refl eq_refl).
Qed.

Lemma IsValid_Build kMagic (buf : list Z) :
  0 <= kMagic < 256 -> (16 <= length buf)%nat ->
  Parser.IsValid kMagic (Builder.Build kMagic buf) = true.
Proof.
  intros Hk H. destruct_buf buf H.
  unfold Parser.IsValid. buf_simpl.
  rewrite (u8_id kMagic), Z.eqb_refl by exact Hk. cbn [negb].
  rewrite (load16_store16 _ _ _ (CrcFacts.checksum_range _) eq_refl eq_refl).
  by rewrite Z.eqb_refl.
Qed.

Lemma parse_setters_of (h : fields) (buf : list Z) :
  valid_fields h -> (16 <= length buf)%nat ->
  Parser.parse (Builder.calls (Builder.setters_of h) buf) = h.
Proof.
  intros (Ht & Hi & Hbt & Hbs & Hc & Hl) H. destruct_buf buf H.
  destruct h as [t i bt bs c l]. cbn [f_type f_id f_body_type f_body_size
    f_ext_count f_ext_len] in *.
  cbv [Builder.calls Builder.setters_of fold_left f_type f_id f_body_type
    f_body_size f_ext_count f_ext_len].
  buf_simpl. f_equal.
  - apply u8_id. lia.
  - rewrite (u32_id i) by lia. eapply load32_store32; [lia|reflexivity..].
  - rewrite (u16_id bt) by lia. eapply load16_store16; [lia|reflexivity..].
  - apply (body_size_value bs (u8 c)); [lia|apply u8_range].
  - apply u8_id. lia.
  - rewrite (u16_id l) by lia. eapply load16_store16; [lia|reflexivity..].
Qed.

(** A frame, byte by byte. *)
Example frame_bytes :
  Builder.Build 0xA5
    (Builder.calls
       (Builder.setters_of (Fields 7 0xDEADBEEF 0x1234 0xABCDEF 3 300))
       (replicate 16 0))
  = [165; 7; 222; 173; 190; 239; 18; 52; 171; 205; 239; 3; 1; 44; 29; 98].
Proof. vm_compute. reflexivity. Qed.

Example set_body_size_bytes :
  Builder.set_body_size 0x010203
    [0; 1; 2; 3; 4; 5; 6; 7; 8; 9; 10; 11; 12; 13; 14; 15]
  = [0; 1; 2; 3; 4; 5; 6; 7; 1; 2; 3; 11; 12; 13; 14; 15].
Proof. vm_compute. reflexivity. Qed.

Lemma flip_range b j :
  0 <= b < 256 -> 0 <= j < 8 -> 0 <= Z.lxor b (Z.shiftl 1 j) < 256.
Proof.
  intros Hb Hj. apply (lxor_range _ _ 8); [lia|exact Hb|].
  rewrite Z.shiftl_1_l. split; [apply Z.pow_nonneg; lia|].
  apply Z.pow_lt_mono_r; lia.
Qed.

Lemma flip_neq b j : 0 <= j -> Z.lxor b (Z.shiftl 1 j) <> b.
Proof.
  intros Hj Heq.
  assert (H0 : Z.shiftl 1 j = 0).
  { apply (lxor_inj_l _ _ b). by rewrite Z.lxor_0_r. }
  rewrite Z.shiftl_1_l in H0.
  pose proof (Z.pow_pos_nonneg 2 j). lia.
Qed.

End HeaderFacts.

(** C1.  For every valid header [h] (each field within its wire width, the
    body size below 2^24), every magic byte and every 16-byte buffer: call
    the six setters with the fields of [h], in any order, then [Build];
    the six getters of the parser give back exactly [h], and [IsValid]
    holds of the built buffer. *)
Theorem build_parse_roundtrip (kMagic : Z) (h : Header.fields)
    (ss : list Header.Builder.setter) (buf : list Z) :
  0 <= kMagic < 256 -> Header.valid_fields h -> (16 <= length buf)%nat ->
  ss ≡ₚ Header.Builder.setters_of h ->
  Header.Parser.parse
    (Header.Builder.Build kMagic (Header.Builder.calls ss buf)) = h /\
  Header.Parser.IsValid kMagic
    (Header.Builder.Build kMagic (Header.Builder.calls ss buf)) = true.
Proof.
  intros Hk Hh Hlen Hp.
  assert (Hnd : NoDup (Header.Builder.field <$> ss)).
  { rewrite Hp. apply NoDup_ListNoDup. repeat constructor; cbn; lia. }
  rewrite (HeaderFacts.calls_perm _ _ _ Hp Hnd Hlen).
  assert (Hlen' : (16 <= length (Header.Builder.calls
                                   (Header.Builder.setters_of h) buf))%nat).
  { cbv [Header.Builder.calls Header.Builder.setters_of fold_left].
    by rewrite !HeaderFacts.call_length. }
  split.
  - rewrite HeaderFacts.parse_Build by exact Hlen'.
    by apply HeaderFacts.parse_setters_of.
  - by apply HeaderFacts.IsValid_Build.
Qed.

Lemma build_parse_roundtrip_witness :
  let h := Header.Fields 7 0xDEADBEEF 0x1234 0xABCDEF 3 300 in
  let ss := [Header.Builder.SetExtCount 3; Header.Builder.SetBodySize 0xABCDEF;
             Header.Builder.SetExtLen 300; Header.Builder.SetType 7;
             Header.Builder.SetBodyType 0x1234;
             Header.Builder.SetId 0xDEADBEEF] in
  let buf := replicate 16 0xFF in
  Header.Parser.parse
    (Header.Builder.Build 0xA5 (Header.Builder.calls ss buf)) = h /\
  Header.Parser.IsValid 0xA5
    (Header.Builder.Build 0xA5 (Header.Builder.calls ss buf)) = true.
Proof.
  apply build_parse_roundtrip.
  - lia.
  - unfold Header.valid_fields. cbn. lia.
  - cbn. lia.
  - cbn. solve_Permutation.
Defined.

(** C2.  For every extension count [c] in [0,255] and every body size [n]
    below 2^24, [set_ext_count(c)] followed by [set_body_size(n)] leaves
    byte 11 equal to [c]; and [set_body_size] changes no byte of the buffer
    other than bytes 8, 9 and 10. *)
Theorem set_body_size_keeps_ext_count (buf : list Z) (c n : Z) :
  (16 <= length buf)%nat -> bytes_ok buf ->
  0 <= c <= 255 -> 0 <= n < 2 ^ 24 ->
  Header.Parser.ext_count
    (Header.Builder.set_body_size n (Header.Builder.set_ext_count c buf)) = c
  /\ (forall i : nat, i <> 8%nat -> i <> 9%nat -> i <> 10%nat ->
        Header.Builder.set_body_size n buf !! i = buf !! i)
  /\ length (Header.Builder.set_body_size n buf) = length buf.
Proof.
  intros Hlen Hok Hc Hn. split; [|split].
  - HeaderFacts.destruct_buf buf Hlen. HeaderFacts.buf_simpl.
    rewrite u8_u8. apply u8_id. lia.
  - intros i H8 H9 H10.
    assert (Hb : u8 (buf !!! 11%nat) = buf !!! 11%nat).
    { apply u8_id. destruct (lookup_lt_is_Some_2 buf 11 ltac:(lia)) as [b Hb].
      rewrite (list_lookup_total_correct _ _ _ Hb).
      exact (proj1 (Forall_lookup _ _) Hok _ _ Hb). }
    unfold Header.Builder.set_body_size, load8, store8. rewrite Hb. clear Hb.
    HeaderFacts.destruct_buf buf Hlen.
    do 16 (destruct i as [|i]; [first [reflexivity|lia]|]).
    reflexivity.
  - apply (HeaderFacts.call_length (Header.Builder.SetBodySize n)).
Qed.

Lemma set_body_size_keeps_ext_count_witness :
  let buf := [0; 1; 2; 3; 4; 5; 6; 7; 8; 9; 10; 11; 12; 13; 14; 15] in
  Header.Parser.ext_count
    (Header.Builder.set_body_size 0xFFFFFF
       (Header.Builder.set_ext_count 255 buf)) = 255
  /\ (forall i : nat, i <> 8%nat -> i <> 9%nat -> i <> 10%nat ->
        Header.Builder.set_body_size 0xFFFFFF buf !! i = buf !! i)
  /\ length (Header.Builder.set_body_size 0xFFFFFF buf) = length buf.
Proof.
  apply set_body_size_keeps_ext_count.
  - cbn. lia.
  - unfold bytes_ok. cbn. repeat constructor; lia.
  - lia.
  - lia.
Defined.

(** C8.  For every built frame and every bit [j] of every byte [i] among
    the first 14, the frame with that one bit inverted is refused by
    [IsValid]: byte 0 no longer is the magic, or the checksum of bytes 0-13
    no longer is the one stored in bytes 14-15. *)
Theorem single_bit_flip_detected (kMagic : Z) (buf : list Z)
    (i : nat) (j : Z) :
  (16 <= length buf)%nat -> bytes_ok buf -> (i < 14)%nat -> 0 <= j < 8 ->
  Header.Parser.IsValid kMagic
    (Header.flip_bit (Header.Builder.Build kMagic buf) i j) = false.
Proof.
  intros Hlen Hok Hi Hj.
  pose proof (HeaderFacts.Build_bytes_ok kMagic buf Hok) as Hfok.
  pose proof (HeaderFacts.Build_stored_checksum kMagic buf Hlen) as Hsum.
  pose proof (HeaderFacts.Build_magic kMagic buf Hlen) as Hmagic.
  pose proof (HeaderFacts.Build_length kMagic buf) as Hflen.
  set (frame := Header.Builder.Build kMagic buf) in *.
  destruct (lookup_lt_is_Some_2 frame i ltac:(lia)) as [b Hb].
  assert (Hbr : 0 <= b < 256)
    by exact (proj1 (Forall_lookup _ _) Hfok _ _ Hb).
  unfold Header.flip_bit. rewrite (list_lookup_total_correct _ _ _ Hb).
  set (b' := Z.lxor b (Z.shiftl 1 j)).
  assert (Hb'r : 0 <= b' < 256) by by apply HeaderFacts.flip_range.
  assert (Hne : b' <> b) by (apply HeaderFacts.flip_neq; lia).
  unfold Header.Parser.IsValid, load8.
  destruct i as [|i].
  - rewrite list_lookup_total_insert_eq by lia.
    rewrite (list_lookup_total_correct _ _ _ Hb) in Hmagic.
    assert (Hk : b' <> kMagic).
    { intros <-. apply Hne. rewrite Hmagic. symmetry. by apply u8_id. }
    apply Z.eqb_neq in Hk. by rewrite Hk.
  - destruct (negb _); [reflexivity|].
    assert (Hstored : load16_be (<[S i:=b']> frame) (Header.kByteSize - 2)
                      = Crc.checksum (take 14 frame)).
    { rewrite <- Hsum. unfold load16_be, Header.kByteSize. cbn [Nat.sub].
      by rewrite !list_lookup_total_insert_ne by lia. }
    rewrite Hstored, take_insert_lt by lia.
    assert (Hb14 : take 14 frame !! S i = Some b)
      by (rewrite lookup_take_lt by lia; exact Hb).
    rewrite insert_take_drop by (rewrite length_take; lia).
    rewrite <- (take_drop_middle _ _ _ Hb14) at 3.
    assert (Hd : Crc.checksum (take (S i) (take 14 frame) ++ b'
                                 :: drop (S (S i)) (take 14 frame))
                 <> Crc.checksum (take (S i) (take 14 frame) ++ b
                                 :: drop (S (S i)) (take 14 frame))).
    { apply CrcFacts.checksum_one_byte; trivial.
      - by apply Forall_take, Forall_take.
      - by apply Forall_drop, Forall_take. }
    apply Z.eqb_neq in Hd. by rewrite Hd.
Qed.

Lemma single_bit_flip_detected_witness :
  Header.Parser.IsValid 0xA5
    (Header.flip_bit
       (Header.Builder.Build 0xA5
          [0; 1; 2; 3; 4; 5; 6; 7; 8; 9; 10; 11; 12; 13; 14; 15]) 9 3)
  = false.
Proof.
  apply single_bit_flip_detected.
  - cbn. lia.
  - unfold bytes_ok. cbn. repeat constructor; lia.
  - lia.
  - lia.
Defined.

(** ** Extension fields *)

Module ExtFacts.
Import ExtHeader.

Lemma encode_app items1 items2 :
  encode (items1 ++ items2) = encode items1 ++ encode items2.
Proof. unfold encode. apply flat_map_app. Qed.

Lemma encode_length items :
  length (encode items) = (2 * length items)%nat.
Proof.
  unfold encode. induction items as [|it items IH]; cbn; [reflexivity|].
  rewrite IH. lia.
Qed.

Lemma lengths_sum_snoc items it :
  lengths_sum (items ++ [it]) = lengths_sum items + it.2.
Proof.
  unfold lengths_sum. induction items as [|x items IH]; cbn; [lia|].
  rewrite IH. lia.
Qed.

Lemma lengths_sum_bound items :
  items_ok items -> 0 <= lengths_sum items <= 255 * Z.of_nat (length items).
Proof.
  unfold lengths_sum.
  induction 1 as [|it items [_ Hit] _ IH]; cbn [fmap list_fmap foldr length];
    lia.
Qed.

(** The length byte of the field that follows [items]. *)
Lemma read_length_field items it rest :
  read (encode items ++ it.1 :: it.2 :: rest)
       (Z.of_nat (length items) * kUnitSize + 1) = Some it.2.
Proof.
  unfold read, kUnitSize.
  destruct (Z.ltb_spec (Z.of_nat (length items) * 2 + 1) 0); [lia|].
  replace (Z.to_nat (Z.of_nat (length items) * 2 + 1))
    with (length (encode items) + 1)%nat by (rewrite encode_length; lia).
  by rewrite lookup_app_r, Nat.add_comm, Nat.add_sub by lia.
Qed.

(** The loop of [IsValid] ends with the sum of the length bytes, cut to 16
    bits. *)
Lemma IsValid_loop items rest :
  foldl (Parser.IsValid_step (encode items ++ rest)) (Some 0)
        (seqZ 0 (Z.of_nat (length items)))
  = Some (u16 (lengths_sum items)).
Proof.
  revert rest. induction items as [|it items IH] using rev_ind; intros rest.
  - reflexivity.
  - rewrite length_app, Nat.add_1_r, seqZ_S.
    rewrite foldl_app, encode_app, <- app_assoc. cbn [encode flat_map app].
    rewrite IH.
    cbn [foldl]. unfold Parser.IsValid_step at 1. cbn [mbind option_bind].
    rewrite Z.add_0_l, read_length_field. cbn [mbind option_bind].
    by rewrite u16_add_l, lengths_sum_snoc.
Qed.

Example GetExtItem_inside :
  Parser.GetExtItem (Parser.new 2 [1; 10; 2; 20; 7; 9]) 1
  = Some (Parser.Item 2 20).
Proof. reflexivity. Qed.

Example GetExtItem_above_count :
  Parser.GetExtItem (Parser.new 2 [1; 10; 2; 20; 7; 9]) 3 = Some Parser.NoItem.
Proof. reflexivity. Qed.

Example IsValid_two_fields :
  Parser.IsValid (Parser.new 2 [1; 10; 2; 20; 7; 9]) 30 = Some true.
Proof. reflexivity. Qed.

End ExtFacts.

(** C4.  For every list of extension fields (at most 255 of them, as the
    count is a byte) laid out in the buffer and every declared extension
    length, [IsValid] returns, and it returns true if and only if the
    length bytes add up to the declared length exactly; declaring one more
    than the sum fails. *)
Theorem ext_IsValid_iff_sum (items : list (Z * Z)) (rest : list Z)
    (ext_len : Z) :
  (length items <= 255)%nat -> ExtHeader.items_ok items ->
  0 <= ext_len < 2 ^ 16 ->
  let p := ExtHeader.Parser.new (Z.of_nat (length items))
             (ExtHeader.encode items ++ rest) in
  (exists ok, ExtHeader.Parser.IsValid p ext_len = Some ok /\
              (ok = true <-> ExtHeader.lengths_sum items = ext_len)) /\
  ExtHeader.Parser.IsValid p (ExtHeader.lengths_sum items + 1) = Some false.
Proof.
  intros Hn Hok Hl p.
  pose proof (ExtFacts.lengths_sum_bound items Hok) as Hsum.
  assert (Hv : forall e, 0 <= e < 2 ^ 16 ->
    ExtHeader.Parser.IsValid p e
    = Some (bool_decide (ExtHeader.lengths_sum items = e))).
  { intros e He. unfold ExtHeader.Parser.IsValid, p, ExtHeader.Parser.new.
    cbn [ExtHeader.Parser.ext_count_ ExtHeader.Parser.ext_buf_].
    rewrite (u8_id (Z.of_nat (length items))) by lia.
    rewrite ExtFacts.IsValid_loop. cbn [mbind option_bind].
    rewrite !u16_id by lia.
    case_bool_decide as Hd.
    - apply Z.eqb_eq in Hd. by rewrite Hd.
    - apply Z.eqb_neq in Hd. by rewrite Hd. }
  split.
  - eexists. split; [by apply Hv|]. case_bool_decide; split; congruence.
  - rewrite Hv by lia. case_bool_decide; [lia|reflexivity].
Qed.

Lemma ext_IsValid_iff_sum_witness :
  let items := [(1, 4); (2, 0); (9, 255)] in
  let p := ExtHeader.Parser.new 3 (ExtHeader.encode items ++ [42; 43]) in
  (exists ok, ExtHeader.Parser.IsValid p 259 = Some ok /\
              (ok = true <-> ExtHeader.lengths_sum items = 259)) /\
  ExtHeader.Parser.IsValid p (ExtHeader.lengths_sum items + 1) = Some false.
Proof.
  apply (ext_IsValid_iff_sum [(1, 4); (2, 0); (9, 255)] [42; 43] 259).
  - cbn. lia.
  - unfold ExtHeader.items_ok. repeat constructor; cbn; lia.
  - lia.
Defined.

(** C3.  [GetExtItem] at [index == ext_count_]: with two fields in the
    buffer, index 2 is not refused; the call reports success and hands out
    the two bytes that follow the list. *)
Example GetExtItem_at_count_not_refused :
  ExtHeader.Parser.GetExtItem
    (ExtHeader.Parser.new 2 [1; 10; 2; 20; 7; 9]) 2
  = Some (ExtHeader.Parser.Item 7 9).
Proof. reflexivity. Qed.

(** ** The keeper *)

Module KeeperFacts.
Import Keeper.

Lemma push_back_watcher_lookup {W} path (w : W) (m : gmap string (list W)) :
  push_back_watcher path w m !! path = Some (default [] (m !! path) ++ [w]).
Proof.
  unfold push_back_watcher. rewrite lookup_alter_eq.
  destruct (m !! path) as [ws|] eqn:Hm.
  - by rewrite Hm.
  - by rewrite lookup_insert_eq.
Qed.

Lemma push_back_watcher_lookup_ne {W} path path' (w : W)
    (m : gmap string (list W)) :
  path <> path' ->
  push_back_watcher path w m !! path' = m !! path'.
Proof.
  intros Hne. unfold push_back_watcher. rewrite lookup_alter_ne by done.
  destruct (m !! path); [done|]. by rewrite lookup_insert_ne.
Qed.

(** The loop of [Multi], started after the steps [done]. *)
Lemma Multi_loop n callback ops done rs m :
  foldl Multi_step
    (length done, (Some <$> done) ++ replicate (length ops + m) None,
     MkMulti n rs callback) ops
  = ((length done + length ops)%nat,
     (Some <$> (done ++ ((fun op => (MakeResult op).1) <$> ops)))
       ++ replicate m None,
     MkMulti n (rs ++ ((fun op => (MakeResult op).2) <$> ops)) callback).
Proof.
  revert done rs. induction ops as [|op ops IH]; intros done rs.
  - cbn. by rewrite Nat.add_0_r, !app_nil_r.
  - cbn [foldl length fmap list_fmap]. unfold Multi_step at 2.
    cbn [MakeResult count results multi_callback fst snd].
    replace (<[length done:=Some (op_zop op)]>
               ((Some <$> done) ++ replicate (S (length ops) + m) None))
      with ((Some <$> (done ++ [op_zop op]))
              ++ replicate (length ops + m) None).
    2:{ rewrite fmap_app, <- app_assoc. cbn.
        rewrite <- (length_fmap Some done) at 1.
        rewrite <- (Nat.add_0_r (length (Some <$> done))).
        by rewrite insert_app_r. }
    replace (S (length done)) with (length (done ++ [op_zop op]))
      by (rewrite length_app; cbn; lia).
    rewrite IH, length_app, <- !app_assoc. cbn.
    by replace (length done + 1 + length ops)%nat
      with (length done + S (length ops))%nat by lia.
Qed.

(** [Multi] on an open session passes its [CHECK_EQ] and submits. *)
Lemma Multi_open ops callback rc st :
  IsOpen st = true ->
  Multi ops callback rc st =
  Some (st,
        ZooCall (zoo_amulti (length ops)
                   (Some <$> ((fun op => (MakeResult op).1) <$> ops))
                   (MkMulti (length ops)
                      ((fun op => (MakeResult op).2) <$> ops) callback))
        :: (if IsOk rc then [] else [Invoke callback rc])).
Proof.
  intros Hopen. unfold Multi. rewrite Hopen. cbn [negb].
  pose proof (Multi_loop (length ops) callback ops [] [] 0) as Hloop.
  cbn [length fmap list_fmap app] in Hloop.
  rewrite Nat.add_0_r, app_nil_r in Hloop. rewrite Hloop.
  cbn [results count]. rewrite length_fmap, Nat.eqb_refl. cbn [negb].
  by destruct (IsOk rc).
Qed.

Section Loop.
Variables kReadable kWritable : Z.

Lemma UpdateEvent_arms ireply st :
  IsBadArguments (ir_status ireply) = false ->
  exists fd ev t,
    UpdateEvent kReadable kWritable ireply st = Some [AsyncWait fd ev t].
Proof.
  intros Hbad. unfold UpdateEvent, Interest.
  destruct (IsOpen st); cbn [negb].
  - destruct (IsOk (ir_status ireply)); [|rewrite Hbad];
      cbn [mbind option_bind]; eauto.
  - change (IsOk kInvalidState) with false.
    change (IsBadArguments kInvalidState) with false.
    cbn [mbind option_bind]. eauto.
Qed.

End Loop.

Lemma arms_singleton fd ev t : arms [AsyncWait fd ev t].
Proof. exists fd, ev, t. apply list_elem_of_here. Qed.

Lemma arms_nil : ~ arms [].
Proof. intros (fd & ev & t & H). by apply not_elem_of_nil in H. Qed.

End KeeperFacts.

(** C5.  For each of the eleven asynchronous operations: when the session
    is not open, or the foreign submission answers a failure, the call
    returns with the state (so both watcher maps) unchanged and has invoked
    its callback exactly once, with [kInvalidState] on a closed session and
    with the code of the submission otherwise. *)
Theorem failed_call_reports_once (o : Keeper.operation) (rc : Keeper.Status)
    (st : Keeper.Impl) :
  Keeper.IsOpen st = false \/ Keeper.IsOk rc = false ->
  exists tr,
    Keeper.run o rc st = Some (st, tr) /\
    Keeper.invocations tr =
      [(Keeper.callback_of o,
        if Keeper.IsOpen st then rc else Keeper.kInvalidState)].
Proof.
  intros H. destruct (Keeper.IsOpen st) eqn:Hopen.
  - destruct H as [H|Hrc]; [discriminate|].
    destruct o; cbn [Keeper.run Keeper.callback_of];
      try (unfold Keeper.AddAuth, Keeper.Create, Keeper.Delete,
             Keeper.Exists, Keeper.Get, Keeper.Set_, Keeper.GetAcl,
             Keeper.SetAcl, Keeper.GetChildren, Keeper.GetChildrenWithStat;
           rewrite Hopen, Hrc; cbn [negb]; eexists; split; reflexivity).
    rewrite KeeperFacts.Multi_open, Hrc by exact Hopen.
    eexists; split; reflexivity.
  - destruct o; cbn [Keeper.run Keeper.callback_of];
      unfold Keeper.AddAuth, Keeper.Create, Keeper.Delete, Keeper.Exists,
        Keeper.Get, Keeper.Set_, Keeper.GetAcl, Keeper.SetAcl,
        Keeper.GetChildren, Keeper.GetChildrenWithStat, Keeper.Multi;
      rewrite Hopen; cbn [negb]; eexists; split; reflexivity.
Qed.

Lemma failed_call_reports_once_witness :
  let st := Keeper.MkImpl (Some (Keeper.ZHandle Keeper.ZOK)) None
              {["/a" := [Some 1%nat]]} ∅ in
  exists tr,
    Keeper.run (Keeper.OpGet "/a" (Some 2%nat) 5%nat) (-4) st
      = Some (st, tr) /\
    Keeper.invocations tr = [(5%nat, -4)].
Proof.
  apply (failed_call_reports_once (Keeper.OpGet "/a" (Some 2%nat) 5%nat) (-4)
           (Keeper.MkImpl (Some (Keeper.ZHandle Keeper.ZOK)) None
              {["/a" := [Some 1%nat]]} ∅)).
  right. reflexivity.
Defined.

(** C7.  For every [Multi] call over [n] operation specifications on an
    open session, whatever the submission answers: the call passes its
    count check and submits a batch whose accumulator holds exactly [n]
    result slots, the slot of each step in the order of the steps, its slot
    count equal to its expected count. *)
Theorem Multi_result_slots (ops : list Keeper.Op) (callback : Keeper.Callback)
    (rc : Keeper.Status) (st : Keeper.Impl) :
  Keeper.IsOpen st = true ->
  exists zops cb,
    Keeper.Multi ops callback rc st =
      Some (st, Keeper.ZooCall (Keeper.zoo_amulti (length ops) zops cb)
                :: (if Keeper.IsOk rc then []
                    else [Keeper.Invoke callback rc])) /\
    Keeper.results cb = (fun op => (Keeper.MakeResult op).2) <$> ops /\
    length (Keeper.results cb) = length ops /\
    length (Keeper.results cb) = Keeper.count cb /\
    length zops = length ops.
Proof.
  intros Hopen. eexists _, _. split; [by apply KeeperFacts.Multi_open|].
  cbn [Keeper.results Keeper.count]. by rewrite !length_fmap.
Qed.

Lemma Multi_result_slots_witness :
  let ops := [Keeper.MkOp 10 100; Keeper.MkOp 11 101; Keeper.MkOp 12 102] in
  let st := Keeper.MkImpl (Some (Keeper.ZHandle Keeper.ZOK)) None ∅ ∅ in
  exists zops cb,
    Keeper.Multi ops 5%nat (-101) st =
      Some (st, Keeper.ZooCall (Keeper.zoo_amulti (length ops) zops cb)
                :: (if Keeper.IsOk (-101) then []
                    else [Keeper.Invoke 5%nat (-101)])) /\
    Keeper.results cb = (fun op => (Keeper.MakeResult op).2) <$> ops /\
    length (Keeper.results cb) = length ops /\
    length (Keeper.results cb) = Keeper.count cb /\
    length zops = length ops.
Proof.
  apply (Multi_result_slots
           [Keeper.MkOp 10 100; Keeper.MkOp 11 101; Keeper.MkOp 12 102]
           5%nat (-101)
           (Keeper.MkImpl (Some (Keeper.ZHandle Keeper.ZOK)) None ∅ ∅)).
  reflexivity.
Defined.

(** C9.  Two successful [Get] calls for the same path on an open session
    leave the node-watcher list of that path extended by both watchers, the
    watcher of the first call before the watcher of the second. *)
Theorem two_Gets_accumulate (path : string) (w1 w2 : Keeper.NodeWatcher)
    (cb1 cb2 : Keeper.Callback) (rc1 rc2 : Keeper.Status)
    (st : Keeper.Impl) :
  Keeper.IsOpen st = true ->
  Keeper.IsOk rc1 = true -> Keeper.IsOk rc2 = true ->
  let st1 := (Keeper.Get path w1 cb1 rc1 st).1 in
  let st2 := (Keeper.Get path w2 cb2 rc2 st1).1 in
  Keeper.node_watcher_ st2 !! path
  = Some (default [] (Keeper.node_watcher_ st !! path) ++ [w1; w2]).
Proof.
  intros Hopen H1 H2. unfold Keeper.Get. rewrite Hopen, H1. cbn [negb fst].
  assert (Hopen' : forall nw,
    Keeper.IsOpen (Keeper.MkImpl (Keeper.zh_ st) (Keeper.listener_ st) nw
                     (Keeper.child_watcher_ st)) = true)
    by (intros nw; exact Hopen).
  rewrite Hopen', H2. cbn [negb fst Keeper.node_watcher_].
  rewrite !KeeperFacts.push_back_watcher_lookup. cbn [default id].
  by rewrite <- app_assoc.
Qed.

Lemma two_Gets_accumulate_witness :
  let st := Keeper.MkImpl (Some (Keeper.ZHandle Keeper.ZOK)) None ∅ ∅ in
  let st1 := (Keeper.Get "/a" (Some 1%nat) 5%nat 0 st).1 in
  let st2 := (Keeper.Get "/a" (Some 2%nat) 6%nat 0 st1).1 in
  Keeper.node_watcher_ st2 !! "/a"
  = Some (default [] (Keeper.node_watcher_ st !! "/a")
            ++ [Some 1%nat; Some 2%nat]).
Proof.
  apply (two_Gets_accumulate "/a" (Some 1%nat) (Some 2%nat) 5%nat 6%nat 0 0
           (Keeper.MkImpl (Some (Keeper.ZHandle Keeper.ZOK)) None ∅ ∅));
    reflexivity.
Defined.

(** C10.  Every successful [Exists] or [Get] appends exactly one entry, the
    given watcher, to the node-watcher list of the path, and every
    successful [GetChildren] or [GetChildrenWithStat] does so on the
    child-watcher list; the lists of other paths and the other map stay as
    they were.  This holds for the empty watcher too, which is stored like
    any other although the foreign call was made without a watch
    function. *)
Theorem successful_read_appends_one_watcher (path : string)
    (watcher : option nat) (callback : Keeper.Callback) (rc : Keeper.Status)
    (st : Keeper.Impl) :
  Keeper.IsOpen st = true -> Keeper.IsOk rc = true ->
  let appended (m' m : gmap string (list (option nat))) :=
    m' !! path = Some (default [] (m !! path) ++ [watcher]) /\
    forall path', path <> path' -> m' !! path' = m !! path' in
  (let st' := (Keeper.Exists path watcher callback rc st).1 in
   appended (Keeper.node_watcher_ st') (Keeper.node_watcher_ st) /\
   Keeper.child_watcher_ st' = Keeper.child_watcher_ st) /\
  (let st' := (Keeper.Get path watcher callback rc st).1 in
   appended (Keeper.node_watcher_ st') (Keeper.node_watcher_ st) /\
   Keeper.child_watcher_ st' = Keeper.child_watcher_ st) /\
  (let st' := (Keeper.GetChildren path watcher callback rc st).1 in
   appended (Keeper.child_watcher_ st') (Keeper.child_watcher_ st) /\
   Keeper.node_watcher_ st' = Keeper.node_watcher_ st) /\
  (let st' := (Keeper.GetChildrenWithStat path watcher callback rc st).1 in
   appended (Keeper.child_watcher_ st') (Keeper.child_watcher_ st) /\
   Keeper.node_watcher_ st' = Keeper.node_watcher_ st) /\
  (watcher = None ->
   (Keeper.Exists path watcher callback rc st).2
     = [Keeper.ZooCall (Keeper.zoo_awexists path false)] /\
   (Keeper.Get path watcher callback rc st).2
     = [Keeper.ZooCall (Keeper.zoo_awget path false)] /\
   (Keeper.GetChildren path watcher callback rc st).2
     = [Keeper.ZooCall (Keeper.zoo_awget_children path false)] /\
   (Keeper.GetChildrenWithStat path watcher callback rc st).2
     = [Keeper.ZooCall (Keeper.zoo_awget_children2 path false)]).
Proof.
  intros Hopen Hrc.
  unfold Keeper.Exists, Keeper.Get, Keeper.GetChildren,
    Keeper.GetChildrenWithStat.
  rewrite Hopen, Hrc.
  cbn [negb fst snd Keeper.node_watcher_ Keeper.child_watcher_].
  repeat split; try apply KeeperFacts.push_back_watcher_lookup;
    try (intros; by apply KeeperFacts.push_back_watcher_lookup_ne);
    by subst watcher.
Qed.

Lemma successful_read_appends_one_watcher_witness :
  let st := Keeper.MkImpl (Some (Keeper.ZHandle Keeper.ZOK)) None
              {["/a" := [Some 1%nat]]} ∅ in
  Keeper.node_watcher_ (Keeper.Exists "/a" None 5%nat 0 st).1 !! "/a"
    = Some [Some 1%nat; None] /\
  (Keeper.Exists "/a" None 5%nat 0 st).2
    = [Keeper.ZooCall (Keeper.zoo_awexists "/a" false)].
Proof.
  pose proof (successful_read_appends_one_watcher "/a" None 5%nat 0
    (Keeper.MkImpl (Some (Keeper.ZHandle Keeper.ZOK)) None
       {["/a" := [Some 1%nat]]} ∅) eq_refl eq_refl) as H.
  cbv zeta in H. destruct H as ((Hnode & _) & _ & _ & _ & Htrace).
  split.
  - exact (proj1 Hnode).
  - exact (proj1 (Htrace eq_refl)).
Defined.

(** C6.  After a readiness event has been delivered through [Process],
    [HandleEvent] returns and has armed another reactor wait if and only if
    the session is then open and not unrecoverable; the code [Process]
    answered, a failure included, plays no part in it.  The replies are
    those of a session in operation: bad-arguments, the programming error
    the code asserts never to see from the library, is set apart. *)
Theorem HandleEvent_rearms (kReadable kWritable events : Z)
    (preply : Keeper.process_reply) (ireply : Keeper.interest_reply)
    (st : Keeper.Impl) :
  Keeper.IsBadArguments (Keeper.pr_status preply) = false ->
  Keeper.IsBadArguments (Keeper.ir_status ireply) = false ->
  Keeper.rearm_rule kReadable kWritable events preply ireply st.
Proof.
  intros Hp Hi. unfold Keeper.rearm_rule, Keeper.HandleEvent, Keeper.Process.
  destruct (Keeper.IsOpen st) eqn:Hopen; cbn [negb].
  - rewrite Hp, andb_false_r.
    unfold Keeper.IsUnrecoverable, Keeper.IsOpen.
    destruct (Keeper.zh_ (Keeper.pr_after preply)) as [zh|] eqn:Hzh;
      cbn [mbind option_bind].
    + destruct (Keeper.is_unrecoverable zh =? Keeper.ZOK) eqn:Hu; cbn [negb].
      * destruct (KeeperFacts.UpdateEvent_arms kReadable kWritable ireply
                    (Keeper.pr_after preply) Hi) as (fd & ev & t & ->).
        cbn [mbind option_bind]. eexists _, _. split; [reflexivity|].
        rewrite Hzh. cbn [mbind option_bind]. rewrite Hu.
        split; [done|intros _; apply KeeperFacts.arms_singleton].
      * eexists _, _. split; [reflexivity|].
        rewrite Hzh. cbn [mbind option_bind]. rewrite Hu.
        split; [intros H; by apply KeeperFacts.arms_nil in H|intros [_ [=]]].
    + eexists _, _. split; [reflexivity|]. rewrite Hzh.
      split; [intros H; by apply KeeperFacts.arms_nil in H|intros [[=] _]].
  - change (Keeper.IsBadArguments Keeper.kInvalidState) with false.
    rewrite andb_false_r, Hopen. eexists _, _. split; [reflexivity|].
    rewrite Hopen.
    split; [intros H; by apply KeeperFacts.arms_nil in H|intros [[=] _]].
Qed.

Lemma HandleEvent_rearms_witness :
  let st := Keeper.MkImpl (Some (Keeper.ZHandle Keeper.ZOK)) None ∅ ∅ in
  Keeper.rearm_rule 1 2 1 (Keeper.ProcessReply (-4) st)
    (Keeper.InterestReply Keeper.ZOK 3 Keeper.ZOOKEEPER_READ 1000) st.
Proof. apply HandleEvent_rearms; reflexivity. Defined.

(** * Further properties of the code *)

(** ** The header codec, continued *)

Module HeaderMore.
Import Header HeaderFacts.

(** The first bytes of a buffer of in-range bytes are in range. *)
Ltac split_bytes_ok H :=
  unfold bytes_ok in H;
  repeat (apply Forall_cons in H as [? H]).

Lemma body_size_bytes b8 b9 b10 c :
  0 <= b9 < 256 -> 0 <= b10 < 256 -> 0 <= c < 256 ->
  Z.shiftr
    (Z.lor (Z.shiftl b8 24)
       (Z.lor (Z.shiftl b9 16) (Z.lor (Z.shiftl b10 8) c))) 8
  = b8 * 65536 + b9 * 256 + b10.
Proof.
  intros. rewrite be32_value by assumption.
  rewrite Z.shiftr_div_pow2 by lia. change (2 ^ 8) with 256.
  Z.div_mod_to_equations. lia.
Qed.

Lemma body_size_cut v :
  let w := u32 (Z.shiftl (u32 v) 8) in
  u8 (Z.shiftr w 24) * 65536 + u8 (Z.shiftr w 16) * 256 + u8 (Z.shiftr w 8)
  = v mod 2 ^ 24.
Proof.
  intros w. unfold w, u32, u8.
  rewrite Z.shiftl_mul_pow2, !Z.shiftr_div_pow2 by lia.
  change (2 ^ 8) with 256. change (2 ^ 16) with 65536.
  change (2 ^ 24) with 16777216. change (2 ^ 32) with 4294967296.
  Z.div_mod_to_equations. lia.
Qed.

(** X1.  On the decoded view every setter is an assignment of its own
    field: the getters after the call give the value just set, cut to the
    width of the field (a body size is cut to 24 bits), and every other
    field as it was. *)
Theorem setter_assigns_field (s : Builder.setter) (buf : list Z) :
  (16 <= length buf)%nat -> bytes_ok buf ->
  Parser.parse (Builder.call s buf) = assign s (Parser.parse buf).
Proof.
  intros Hlen Hok. destruct_buf buf Hlen. split_bytes_ok Hok.
  destruct s; buf_simpl; unfold assign;
    cbn [f_type f_id f_body_type f_body_size f_ext_count f_ext_len];
    f_equal.
  - rewrite (be32_value _ _ _ _ (u8_range _) (u8_range _) (u8_range _)).
    apply split32. unfold u32. apply Z.mod_pos_bound. lia.
  - rewrite (be16_value _ _ (u8_range _)). apply split16, u16_range.
  - rewrite body_size_bytes by (apply u8_range).
    apply body_size_cut.
  - by apply u8_id.
  - rewrite !body_size_bytes by (assumption || apply u8_range). reflexivity.
  - rewrite (be16_value _ _ (u8_range _)). apply split16, u16_range.
Qed.

Lemma setter_assigns_field_witness :
  Parser.parse (Builder.call (Builder.SetBodySize 0x1ABCDEF0)
                  [0; 1; 2; 3; 4; 5; 6; 7; 8; 9; 10; 11; 12; 13; 14; 15])
  = assign (Builder.SetBodySize 0x1ABCDEF0)
      (Parser.parse [0; 1; 2; 3; 4; 5; 6; 7; 8; 9; 10; 11; 12; 13; 14; 15]).
Proof.
  apply setter_assigns_field.
  - cbn. lia.
  - unfold bytes_ok; repeat constructor; lia.
Defined.
End HeaderMore.

Module CrcLinear.
Import Crc CrcFacts.

Lemma u16_lxor x y : u16 (Z.lxor x y) = Z.lxor (u16 x) (u16 y).
Proof.
  unfold u16. rewrite <- !Z.land_ones by lia.
  apply Z.bits_inj'; intros n Hn.
  rewrite !Z.lxor_spec, !Z.land_spec, !Z.lxor_spec.
  destruct (Z.testbit x n), (Z.testbit y n), (Z.testbit (Z.ones 16) n);
    reflexivity.
Qed.

(** The register update is linear over exclusive or. *)
Lemma shift_bit_lxor a b :
  shift_bit (Z.lxor a b) = Z.lxor (shift_bit a) (shift_bit b).
Proof.
  unfold shift_bit. rewrite Z.lxor_spec, Z.shiftl_lxor, u16_lxor.
  set (A := u16 (Z.shiftl a 1)). set (B := u16 (Z.shiftl b 1)).
  destruct (Z.testbit a 15), (Z.testbit b 15); cbn [xorb];
    apply Z.bits_inj'; intros n Hn; rewrite !Z.lxor_spec;
    destruct (Z.testbit A n), (Z.testbit B n), (Z.testbit poly n);
    reflexivity.
Qed.

Lemma iter_shift_bit_lxor n a b :
  Nat.iter n shift_bit (Z.lxor a b)
  = Z.lxor (Nat.iter n shift_bit a) (Nat.iter n shift_bit b).
Proof.
  induction n as [|n IH]; [reflexivity|].
  rewrite !Nat.iter_succ. by rewrite IH, shift_bit_lxor.
Qed.

Lemma process_byte_split r b :
  process_byte r b = Z.lxor (Nat.iter 8 shift_bit r) (table_entry b).
Proof. unfold process_byte, table_entry. apply iter_shift_bit_lxor. Qed.

Lemma table_entry_low_byte d : 0 <= d < 256 -> table_entry d mod 256 = 0 -> d = 0.
Proof.
  intros Hd HT.
  assert (Hall : forallb (fun d => (d =? 0) || negb (table_entry d mod 256 =? 0))
                   (seqZ 0 256) = true) by (vm_compute; reflexivity).
  rewrite forallb_forall in Hall.
  assert (Hin : In d (seqZ 0 256)).
  { apply list_elem_of_In, elem_of_seqZ. lia. }
  specialize (Hall d Hin). rewrite HT in Hall. cbn in Hall.
  rewrite orb_false_r in Hall. by apply Z.eqb_eq in Hall.
Qed.

Lemma table_entry_0 : table_entry 0 = 0.
Proof. vm_compute. reflexivity. Qed.

Lemma byte_lxor_range a b :
  0 <= a < 256 -> 0 <= b < 256 -> 0 <= Z.lxor a b < 256.
Proof. intros. apply (lxor_range _ _ 8); lia. Qed.

Lemma lxor_swap_mid i x y z w :
  Z.lxor (Z.lxor i x) z = Z.lxor (Z.lxor i y) w ->
  Z.lxor x y = Z.lxor z w.
Proof.
  intros H.
  apply (lxor_inj_r _ _ (Z.lxor y z)). apply (lxor_inj_l _ _ i).
  transitivity (Z.lxor (Z.lxor i x) z).
  - apply Z.bits_inj'; intros n Hn; rewrite !Z.lxor_spec.
    destruct (Z.testbit i n), (Z.testbit x n), (Z.testbit y n),
      (Z.testbit z n); reflexivity.
  - rewrite H.
    apply Z.bits_inj'; intros n Hn; rewrite !Z.lxor_spec.
    destruct (Z.testbit i n), (Z.testbit y n), (Z.testbit z n),
      (Z.testbit w n); reflexivity.
Qed.

Lemma table_entry_lxor a b : table_entry (Z.lxor a b) = Z.lxor (table_entry a) (table_entry b).
Proof. unfold table_entry. by rewrite Z.shiftl_lxor, iter_shift_bit_lxor. Qed.

Lemma table_entry_shifted d e :
  0 <= d < 256 -> table_entry d = Z.shiftl e 8 -> d = 0 /\ e = 0.
Proof.
  intros Hd HT.
  assert (d = 0).
  { apply table_entry_low_byte; [exact Hd|].
    rewrite HT, Z.shiftl_mul_pow2 by lia. change (2 ^ 8) with 256.
    apply Z.mod_mul. lia. }
  subst d. split; [reflexivity|].
  rewrite table_entry_0, Z.shiftl_mul_pow2 in HT by lia. lia.
Qed.

Lemma process_byte_feed_inj r1 r2 b1 b2 :
  rem_ok r1 -> rem_ok r2 -> 0 <= b1 < 256 -> 0 <= b2 < 256 ->
  process_byte r1 b1 = process_byte r2 b2 ->
  Z.lxor r1 (Z.shiftl b1 8) = Z.lxor r2 (Z.shiftl b2 8).
Proof.
  intros H1 H2 Hb1 Hb2 Heq. unfold process_byte in Heq.
  eapply iter_shift_bit_inj; [| |exact Heq]; by apply feed_range.
Qed.

(** Two bytes fed one after the other: the remainder tells them apart. *)
Lemma two_bytes_inj r b1 b2 c1 c2 :
  rem_ok r -> 0 <= b1 < 256 -> 0 <= b2 < 256 ->
  0 <= c1 < 256 -> 0 <= c2 < 256 ->
  process_byte (process_byte r b1) b2 = process_byte (process_byte r c1) c2 ->
  b1 = c1 /\ b2 = c2.
Proof.
  intros Hr Hb1 Hb2 Hc1 Hc2 Heq.
  apply process_byte_feed_inj in Heq;
    [|apply process_byte_range..|assumption|assumption].
  rewrite !process_byte_split in Heq.
  apply lxor_swap_mid in Heq.
  rewrite <- table_entry_lxor, <- Z.shiftl_lxor in Heq.
  apply table_entry_shifted in Heq as [H1 H2]; [|by apply byte_lxor_range].
  apply Z.lxor_eq in H1, H2. by split.
Qed.

Lemma process_bytes_app r l1 l2 :
  process_bytes r (l1 ++ l2) = process_bytes (process_bytes r l1) l2.
Proof. unfold process_bytes. apply fold_left_app. Qed.

Lemma process_bytes_cons r b l :
  process_bytes r (b :: l) = process_bytes (process_byte r b) l.
Proof. reflexivity. Qed.

Lemma checksum_two_bytes l1 b1 b2 c1 c2 l2 :
  bytes_ok l1 -> bytes_ok l2 ->
  0 <= b1 < 256 -> 0 <= b2 < 256 -> 0 <= c1 < 256 -> 0 <= c2 < 256 ->
  checksum (l1 ++ b1 :: b2 :: l2) = checksum (l1 ++ c1 :: c2 :: l2) ->
  b1 = c1 /\ b2 = c2.
Proof.
  intros Hl1 Hl2 Hb1 Hb2 Hc1 Hc2 Heq.
  unfold checksum in Heq.
  rewrite !process_bytes_app, !process_bytes_cons in Heq.
  apply process_bytes_inj in Heq;
    [|apply process_byte_range..|exact Hl2].
  apply two_bytes_inj in Heq; trivial.
  apply process_bytes_range. unfold rem_ok, initial_remainder. lia.
Qed.

End CrcLinear.

Module HeaderCorrupt.
Import Header HeaderFacts HeaderMore.

(** A buffer whose trailer holds the checksum of some other 14 bytes is
    refused. *)
Lemma IsValid_stale kMagic (frame : list Z) (crc : Z) :
  load16_be frame 14 = crc ->
  Crc.checksum (take 14 frame) <> crc ->
  Parser.IsValid kMagic frame = false.
Proof.
  intros Hs Hne. unfold Parser.IsValid, kByteSize. cbn [Nat.sub].
  destruct (negb _); [reflexivity|].
  rewrite Hs. apply Z.eqb_neq in Hne. by rewrite Hne.
Qed.

Lemma lookup_total_bytes_ok (buf : list Z) i :
  bytes_ok buf -> (i < length buf)%nat -> 0 <= buf !!! i < 256.
Proof.
  intros Hok Hi. destruct (lookup_lt_is_Some_2 buf i Hi) as [b Hb].
  rewrite (list_lookup_total_correct _ _ _ Hb).
  exact (proj1 (Forall_lookup _ _) Hok _ _ Hb).
Qed.

(** X2.  A built frame in which any one of the 16 header bytes (magic,
    fields or stored checksum) has been replaced by a different byte is
    refused by [IsValid]. *)
Theorem single_byte_corruption_detected (kMagic : Z) (buf : list Z)
    (i : nat) (b' : Z) :
  (16 <= length buf)%nat -> bytes_ok buf -> (i < 16)%nat ->
  0 <= b' < 256 -> b' <> Builder.Build kMagic buf !!! i ->
  Parser.IsValid kMagic (<[i := b']> (Builder.Build kMagic buf)) = false.
Proof.
  intros Hlen Hok Hi Hb' Hne.
  pose proof (Build_bytes_ok kMagic buf Hok) as Hfok.
  pose proof (Build_stored_checksum kMagic buf Hlen) as Hsum.
  pose proof (Build_magic kMagic buf Hlen) as Hmagic.
  pose proof (Build_length kMagic buf) as Hflen.
  set (frame := Builder.Build kMagic buf) in *.
  assert (Hbr : 0 <= frame !!! i < 256)
    by (apply lookup_total_bytes_ok; [assumption|lia]).
  destruct (decide (i = 0%nat)) as [->|Hi0].
  { unfold Parser.IsValid, load8.
    rewrite list_lookup_total_insert_eq by lia.
    assert (Hk : b' <> kMagic).
    { intros <-. apply Hne. rewrite Hmagic. symmetry. by apply u8_id. }
    apply Z.eqb_neq in Hk. by rewrite Hk. }
  destruct (decide (i < 14)%nat) as [Hi14|Hi14].
  - apply (IsValid_stale _ _ (Crc.checksum (take 14 frame))).
    + rewrite <- Hsum. unfold load16_be.
      by rewrite !list_lookup_total_insert_ne by lia.
    + rewrite take_insert_lt by lia.
      assert (Hb14 : take 14 frame !! i = Some (frame !!! i)).
      { rewrite lookup_take_lt by lia.
        apply list_lookup_lookup_total_lt. lia. }
      rewrite insert_take_drop by (rewrite length_take; lia).
      rewrite <- (take_drop_middle _ _ _ Hb14) at 3.
      apply not_eq_sym, CrcFacts.checksum_one_byte; trivial.
      * by apply Forall_take, Forall_take.
      * by apply Forall_drop, Forall_take.
      * congruence.
  - apply (IsValid_stale _ _
             (load16_be (<[i:=b']> frame) 14)); [reflexivity|].
    rewrite take_insert_ge by lia. rewrite <- Hsum.
    assert (H14 : 0 <= frame !!! 14%nat < 256)
      by (apply lookup_total_bytes_ok; [assumption|lia]).
    assert (H15 : 0 <= frame !!! 15%nat < 256)
      by (apply lookup_total_bytes_ok; [assumption|lia]).
    unfold load16_be.
    assert (i = 14 \/ i = 15)%nat as [-> | ->] by lia.
    + rewrite list_lookup_total_insert_eq by lia.
      rewrite list_lookup_total_insert_ne by lia.
      rewrite !be16_value by assumption. lia.
    + rewrite list_lookup_total_insert_ne by lia.
      rewrite list_lookup_total_insert_eq by lia.
      rewrite !be16_value by assumption. lia.
Qed.

Lemma single_byte_corruption_detected_witness :
  Parser.IsValid 0xA5
    (<[14%nat := 0]> (Builder.Build 0xA5
                        [0; 1; 2; 3; 4; 5; 6; 7; 8; 9; 10; 11; 12; 13; 14; 15]))
  = false.
Proof.
  apply single_byte_corruption_detected.
  - cbn. lia.
  - unfold bytes_ok; repeat constructor; lia.
  - lia.
  - lia.
  - vm_compute. discriminate.
Defined.

End HeaderCorrupt.

Module HeaderStale.
Import Header HeaderFacts HeaderMore HeaderCorrupt.

Ltac bytes_tac :=
  unfold bytes_ok;
  repeat (constructor; [first [apply u8_range | assumption]|]);
  constructor.

(** X3.  After [Build], a call of [set_type], [set_body_type],
    [set_ext_count] or [set_ext_len] that changes the decoded header leaves
    a frame that [IsValid] refuses until [Build] is called again (these
    fields span at most 16 bits, which the checksum always tells apart). *)
Theorem stale_checksum_detected (kMagic : Z) (buf : list Z)
    (s : Builder.setter) :
  (16 <= length buf)%nat -> bytes_ok buf ->
  Builder.field s <> 1%nat -> Builder.field s <> 3%nat ->
  Parser.parse (Builder.call s (Builder.Build kMagic buf))
    <> Parser.parse (Builder.Build kMagic buf) ->
  Parser.IsValid kMagic (Builder.call s (Builder.Build kMagic buf)) = false.
Proof.
  intros Hlen Hok Hf1 Hf3 Hne.
  destruct_buf buf Hlen. split_bytes_ok Hok.
  destruct s; cbn [Builder.field] in Hf1, Hf3; try lia.
  - (* set_type *)
    eapply IsValid_stale; [buf_simpl; reflexivity|].
    buf_simpl.
    rewrite (load16_store16 _ _ _ (CrcFacts.checksum_range _) eq_refl eq_refl).
    apply not_eq_sym.
    apply (CrcFacts.checksum_one_byte [_] _ _ _).
    + bytes_tac.
    + bytes_tac.
    + assumption.
    + apply u8_range.
    + intros Heq. apply Hne. buf_simpl. by rewrite <- Heq.
  - (* set_body_type *)
    eapply IsValid_stale; [buf_simpl; reflexivity|].
    buf_simpl.
    rewrite (load16_store16 _ _ _ (CrcFacts.checksum_range _) eq_refl eq_refl).
    intros Heq.
    apply (CrcLinear.checksum_two_bytes [_; _; _; _; _; _] _ _ _ _ _)
      in Heq as [Hx1 Hx2].
    + apply Hne. buf_simpl. by rewrite Hx1, Hx2.
    + bytes_tac.
    + bytes_tac.
    + apply u8_range.
    + apply u8_range.
    + assumption.
    + assumption.
  - (* set_ext_count *)
    eapply IsValid_stale; [buf_simpl; reflexivity|].
    buf_simpl.
    rewrite (load16_store16 _ _ _ (CrcFacts.checksum_range _) eq_refl eq_refl).
    apply not_eq_sym.
    apply (CrcFacts.checksum_one_byte [_; _; _; _; _; _; _; _; _; _; _] _ _ _).
    + bytes_tac.
    + bytes_tac.
    + assumption.
    + apply u8_range.
    + intros Heq. apply Hne. buf_simpl. by rewrite <- Heq.
  - (* set_ext_len *)
    eapply IsValid_stale; [buf_simpl; reflexivity|].
    buf_simpl.
    rewrite (load16_store16 _ _ _ (CrcFacts.checksum_range _) eq_refl eq_refl).
    intros Heq.
    apply (CrcLinear.checksum_two_bytes
             [_; _; _; _; _; _; _; _; _; _; _; _] _ _ _ _ [])
      in Heq as [Hx1 Hx2].
    + apply Hne. buf_simpl. by rewrite Hx1, Hx2.
    + bytes_tac.
    + bytes_tac.
    + apply u8_range.
    + apply u8_range.
    + assumption.
    + assumption.
Qed.

Lemma stale_checksum_detected_witness :
  Parser.IsValid 0xA5
    (Builder.call (Builder.SetExtLen 7)
       (Builder.Build 0xA5 [0; 1; 2; 3; 4; 5; 6; 7; 8; 9; 10; 11; 12; 13; 14; 15]))
  = false.
Proof.
  apply stale_checksum_detected.
  - cbn. lia.
  - unfold bytes_ok; repeat constructor; lia.
  - cbn. lia.
  - cbn. lia.
  - vm_compute. discriminate.
Defined.

End HeaderStale.

Module HeaderShape.
Import Header HeaderFacts HeaderMore.

(** X4.  [Build] called twice gives the frame of the first call. *)
Theorem Build_idempotent (kMagic : Z) (buf : list Z) :
  (16 <= length buf)%nat ->
  Builder.Build kMagic (Builder.Build kMagic buf) = Builder.Build kMagic buf.
Proof.
  intros H. destruct_buf buf H. reflexivity.
Qed.

Lemma Build_idempotent_witness :
  Builder.Build 0xA5 (Builder.Build 0xA5 [0; 1; 2; 3; 4; 5; 6; 7; 8; 9; 10; 11; 12; 13; 14; 15])
  = Builder.Build 0xA5 [0; 1; 2; 3; 4; 5; 6; 7; 8; 9; 10; 11; 12; 13; 14; 15].
Proof. apply Build_idempotent. cbn. lia. Defined.

(** X5.  [IsValid] and the six getters look at the first 16 bytes only:
    whatever follows the header in the buffer has no part in the result. *)
Theorem parser_reads_header_only (kMagic : Z) (buf : list Z) :
  (16 <= length buf)%nat ->
  Parser.IsValid kMagic buf = Parser.IsValid kMagic (take 16 buf) /\
  Parser.parse buf = Parser.parse (take 16 buf).
Proof. intros H. destruct_buf buf H. split; reflexivity. Qed.

Lemma parser_reads_header_only_witness :
  let buf := Builder.Build 0xA5 [0; 1; 2; 3; 4; 5; 6; 7; 8; 9; 10; 11; 12; 13; 14; 15]
             ++ [77; 78; 79] in
  Parser.IsValid 0xA5 buf = Parser.IsValid 0xA5 (take 16 buf) /\
  Parser.parse buf = Parser.parse (take 16 buf).
Proof. apply parser_reads_header_only. cbn. lia. Defined.

Lemma calls_length ss (buf : list Z) :
  length (Builder.calls ss buf) = length buf.
Proof.
  revert buf. induction ss as [|s ss IH]; intros buf; [reflexivity|].
  cbn. by rewrite IH, call_length.
Qed.

Lemma call_drop s (buf : list Z) :
  drop 16 (Builder.call s buf) = drop 16 buf.
Proof.
  destruct s; cbv [Builder.call Builder.set_type Builder.set_id
    Builder.set_body_type Builder.set_body_size Builder.set_ext_count
    Builder.set_ext_len store8 store16_be store32_be];
    rewrite ?drop_insert_lt by lia; reflexivity.
Qed.

(** X6.  Any sequence of setter calls followed by [Build] leaves every byte
    from offset 16 on, and the length of the buffer, as they were. *)
Theorem builder_writes_header_only (kMagic : Z)
    (ss : list Builder.setter) (buf : list Z) :
  (16 <= length buf)%nat ->
  drop 16 (Builder.Build kMagic (Builder.calls ss buf)) = drop 16 buf /\
  length (Builder.Build kMagic (Builder.calls ss buf)) = length buf.
Proof.
  intros _. split.
  - unfold Builder.Build, store16_be, store8, kByteSize. cbn [Nat.sub].
    rewrite !drop_insert_lt by lia.
    revert buf. induction ss as [|s ss IH]; intros buf; [reflexivity|].
    cbn. by rewrite IH, call_drop.
  - by rewrite Build_length, calls_length.
Qed.

Lemma builder_writes_header_only_witness :
  let buf := [0; 1; 2; 3; 4; 5; 6; 7; 8; 9; 10; 11; 12; 13; 14; 15] ++ [77; 78; 79] in
  let ss := [Builder.SetId 0xDEADBEEF; Builder.SetExtLen 300] in
  drop 16 (Builder.Build 0xA5 (Builder.calls ss buf)) = drop 16 buf /\
  length (Builder.Build 0xA5 (Builder.calls ss buf)) = length buf.
Proof. apply builder_writes_header_only. cbn. lia. Defined.

(** X7.  Once the six setters have been called (in any order) and [Build],
    the 16 header bytes depend on the field values and the magic only:
    nothing of the previous content of the buffer is left in them. *)
Theorem frame_determined_by_fields (kMagic : Z) (h : fields)
    (ss1 ss2 : list Builder.setter) (buf1 buf2 : list Z) :
  (16 <= length buf1)%nat -> (16 <= length buf2)%nat ->
  ss1 ≡ₚ Builder.setters_of h -> ss2 ≡ₚ Builder.setters_of h ->
  take 16 (Builder.Build kMagic (Builder.calls ss1 buf1))
  = take 16 (Builder.Build kMagic (Builder.calls ss2 buf2)).
Proof.
  intros H1 H2 Hp1 Hp2.
  assert (Hnd : forall ss, ss ≡ₚ Builder.setters_of h ->
                           NoDup (Builder.field <$> ss)).
  { intros ss Hp. rewrite Hp. apply NoDup_ListNoDup.
    repeat constructor; cbn; lia. }
  rewrite (calls_perm _ _ _ Hp1 (Hnd _ Hp1) H1).
  rewrite (calls_perm _ _ _ Hp2 (Hnd _ Hp2) H2).
  destruct_buf buf1 H1. destruct_buf buf2 H2. reflexivity.
Qed.

Lemma frame_determined_by_fields_witness :
  let h := Fields 7 0xDEADBEEF 0x1234 0xABCDEF 3 300 in
  take 16 (Builder.Build 0xA5
             (Builder.calls (Builder.setters_of h) (replicate 16 0xFF)))
  = take 16 (Builder.Build 0xA5
               (Builder.calls (Builder.setters_of h)
                  [0; 1; 2; 3; 4; 5; 6; 7; 8; 9; 10; 11; 12; 13; 14; 15])).
Proof.
  apply (frame_determined_by_fields 0xA5
           (Fields 7 0xDEADBEEF 0x1234 0xABCDEF 3 300));
    first [cbn; lia | reflexivity].
Defined.

(** X8.  Two valid headers that give the same 16 header bytes are equal. *)
Theorem frame_injective (kMagic : Z) (h1 h2 : fields) (buf1 buf2 : list Z) :
  (16 <= length buf1)%nat -> (16 <= length buf2)%nat ->
  valid_fields h1 -> valid_fields h2 ->
  take 16 (Builder.Build kMagic (Builder.calls (Builder.setters_of h1) buf1))
  = take 16 (Builder.Build kMagic (Builder.calls (Builder.setters_of h2) buf2))
  -> h1 = h2.
Proof.
  intros H1 H2 Hv1 Hv2 Heq.
  assert (Hp : forall h buf, valid_fields h -> (16 <= length buf)%nat ->
    Parser.parse
      (take 16 (Builder.Build kMagic
                  (Builder.calls (Builder.setters_of h) buf))) = h).
  { intros h buf Hv Hl.
    assert (Hl' : (16 <= length (Builder.calls (Builder.setters_of h) buf))%nat)
      by by rewrite calls_length.
    rewrite <- (proj2 (parser_reads_header_only kMagic _
      ltac:(by rewrite Build_length))).
    rewrite parse_Build by exact Hl'. by apply parse_setters_of. }
  rewrite <- (Hp h1 buf1 Hv1 H1), <- (Hp h2 buf2 Hv2 H2). by rewrite Heq.
Qed.

Lemma frame_injective_witness :
  Fields 7 0xDEADBEEF 0x1234 0xABCDEF 3 300
  = Fields 7 0xDEADBEEF 0x1234 0xABCDEF 3 300.
Proof.
  apply (frame_injective 0xA5 _ _ (replicate 16 0xFF)
           [0; 1; 2; 3; 4; 5; 6; 7; 8; 9; 10; 11; 12; 13; 14; 15]).
  - cbn. lia.
  - cbn. lia.
  - unfold valid_fields. cbn. lia.
  - unfold valid_fields. cbn. lia.
  - vm_compute. reflexivity.
Defined.

End HeaderShape.

(** ** The extension builder *)

Module ExtBuild.
Import ExtHeader ExtFacts.

(** One more field behind [n] fields already written. *)
Lemma AddExtItem_next (done : list (Z * Z)) (it : Z * Z) (rest : list Z) :
  (length done < 255)%nat -> (2 <= length rest)%nat ->
  0 <= it.1 < 256 -> 0 <= it.2 < 256 ->
  Builder.AddExtItem it.1 it.2
    (Builder.Make (Z.of_nat (length done)) (encode done ++ rest))
  = Some (Builder.Make (Z.of_nat (length (done ++ [it])))
            (encode (done ++ [it]) ++ drop 2 rest)).
Proof.
  intros Hn Hrest H1 H2.
  destruct rest as [|r0 [|r1 rest]]; [cbn in Hrest; lia..|].
  unfold Builder.AddExtItem, write, kUnitSize.
  cbn [Builder.ext_count_ Builder.ext_buf_].
  pose proof (encode_length done) as Hlen.
  destruct (Z.ltb_spec (Z.of_nat (length done) * 2) 0); [lia|].
  replace (Z.to_nat (Z.of_nat (length done) * 2))
    with (length (encode done) + 0)%nat by lia.
  destruct (Nat.ltb_spec (length (encode done) + 0)
              (length (encode done ++ r0 :: r1 :: rest)));
    [|rewrite length_app in *; cbn in *; lia].
  cbn [mbind option_bind].
  rewrite insert_app_r. cbn [insert list_insert].
  destruct (Z.ltb_spec (Z.of_nat (length done) * 2 + 1) 0); [lia|].
  replace (Z.to_nat (Z.of_nat (length done) * 2 + 1))
    with (length (encode done) + 1)%nat by lia.
  destruct (Nat.ltb_spec (length (encode done) + 1)
              (length (encode done ++ u8 it.1 :: r1 :: rest)));
    [|rewrite length_app in *; cbn in *; lia].
  cbn [mbind option_bind].
  rewrite insert_app_r. cbn [insert list_insert drop].
  rewrite !u8_id by (assumption || (rewrite ?length_app; cbn; lia)).
  rewrite encode_app, <- app_assoc, length_app, Nat2Z.inj_add.
  reflexivity.
Qed.

Lemma add_items_from (done items : list (Z * Z)) (rest : list Z) :
  (length done + length items <= 255)%nat ->
  (2 * length items <= length rest)%nat -> items_ok items ->
  Builder.add_items items
    (Builder.Make (Z.of_nat (length done)) (encode done ++ rest))
  = Some (Builder.Make (Z.of_nat (length (done ++ items)))
            (encode (done ++ items) ++ drop (2 * length items) rest)).
Proof.
  intros Hn Hrest Hok. revert done rest Hn Hrest.
  induction Hok as [|it items [H1 H2] Hok IH]; intros done rest Hn Hrest.
  - by rewrite app_nil_r.
  - cbn [length] in *. unfold Builder.add_items. cbn [foldl].
    cbn [mbind option_bind].
    rewrite AddExtItem_next by (assumption || lia).
    fold (Builder.add_items items
            (Builder.Make (Z.of_nat (length (done ++ [it])))
               (encode (done ++ [it]) ++ drop 2 rest))).
    rewrite IH.
    + rewrite <- app_assoc, drop_drop. cbn [app].
      by replace (2 + 2 * length items)%nat
        with (2 * S (length items))%nat by lia.
    + rewrite length_app. cbn. lia.
    + rewrite length_drop. lia.
Qed.

(** X9.  [AddExtItem] called for each field of a list (at most 255 of them,
    on a buffer with room for two bytes per field) writes the fields one
    after the other from the start of the buffer, counts them, and leaves
    the bytes behind them as they were. *)
Theorem add_items_layout (items : list (Z * Z)) (buf : list Z) :
  (length items <= 255)%nat -> (2 * length items <= length buf)%nat ->
  items_ok items ->
  Builder.add_items items (Builder.new buf)
  = Some (Builder.Make (Z.of_nat (length items))
            (encode items ++ drop (2 * length items) buf)).
Proof.
  intros Hn Hbuf Hok.
  exact (add_items_from [] items buf Hn Hbuf Hok).
Qed.

Lemma add_items_layout_witness :
  Builder.add_items [(1, 4); (2, 0)] (Builder.new [9; 9; 9; 9; 9; 9])
  = Some (Builder.Make 2 [1; 4; 2; 0; 9; 9]).
Proof.
  apply (add_items_layout [(1, 4); (2, 0)] [9; 9; 9; 9; 9; 9]).
  - cbn. lia.
  - cbn. lia.
  - unfold items_ok. repeat constructor; cbn; lia.
Defined.

Lemma read_encode (items : list (Z * Z)) (rest : list Z) (i : nat) t l :
  items !! i = Some (t, l) ->
  read (encode items ++ rest) (Z.of_nat i * kUnitSize) = Some t /\
  read (encode items ++ rest) (Z.of_nat i * kUnitSize + 1) = Some l.
Proof.
  intros Hi. apply list_elem_of_split_length in Hi
    as (l1 & l2 & -> & ->).
  rewrite encode_app, <- app_assoc. cbn [encode flat_map app fst snd].
  split.
  - unfold read, kUnitSize.
    destruct (Z.ltb_spec (Z.of_nat (length l1) * 2) 0); [lia|].
    replace (Z.to_nat (Z.of_nat (length l1) * 2))
      with (length (encode l1) + 0)%nat by (rewrite encode_length; lia).
    by rewrite lookup_app_r, Nat.add_comm, Nat.add_sub by lia.
  - apply (read_length_field l1 (t, l)).
Qed.

(** X10.  What [AddExtItem] wrote, [GetExtItem] reads back: a parser made
    from the count and the buffer of the builder returns the [i]-th field
    at index [i]. *)
Theorem built_items_read_back (items : list (Z * Z)) (buf : list Z)
    (i : nat) (t l : Z) :
  (length items <= 255)%nat -> (2 * length items <= length buf)%nat ->
  items_ok items -> items !! i = Some (t, l) ->
  exists b,
    Builder.add_items items (Builder.new buf) = Some b /\
    Parser.GetExtItem
      (Parser.new (Builder.ext_count_ b) (Builder.ext_buf_ b)) (Z.of_nat i)
    = Some (Parser.Item t l).
Proof.
  intros Hn Hbuf Hok Hi. eexists. split; [by apply add_items_layout|].
  cbn [Builder.ext_count_ Builder.ext_buf_].
  unfold Parser.GetExtItem, Parser.new.
  cbn [Parser.ext_count_ Parser.ext_buf_].
  rewrite u8_id by lia.
  apply lookup_lt_Some in Hi as Hlt.
  destruct (Z.gtb_spec (Z.of_nat i) (Z.of_nat (length items))); [lia|].
  destruct (read_encode items (drop (2 * length items) buf) i t l Hi)
    as [-> ->].
  reflexivity.
Qed.

Lemma built_items_read_back_witness :
  exists b,
    Builder.add_items [(1, 4); (2, 0)] (Builder.new [9; 9; 9; 9; 9; 9])
      = Some b /\
    Parser.GetExtItem
      (Parser.new (Builder.ext_count_ b) (Builder.ext_buf_ b)) 1
    = Some (Parser.Item 2 0).
Proof.
  apply (built_items_read_back [(1, 4); (2, 0)] [9; 9; 9; 9; 9; 9] 1 2 0).
  - cbn. lia.
  - cbn. lia.
  - unfold items_ok. repeat constructor; cbn; lia.
  - reflexivity.
Defined.

(** X11.  The fields written by [AddExtItem] pass [ExtHeader::Parser]'s
    [IsValid] for exactly one declared length, the sum of their length
    bytes. *)
Theorem built_items_validate (items : list (Z * Z)) (buf : list Z)
    (ext_len : Z) :
  (length items <= 255)%nat -> (2 * length items <= length buf)%nat ->
  items_ok items -> 0 <= ext_len < 2 ^ 16 ->
  exists b,
    Builder.add_items items (Builder.new buf) = Some b /\
    Parser.IsValid
      (Parser.new (Builder.ext_count_ b) (Builder.ext_buf_ b)) ext_len
    = Some (bool_decide (lengths_sum items = ext_len)).
Proof.
  intros Hn Hbuf Hok Hl. eexists. split; [by apply add_items_layout|].
  cbn [Builder.ext_count_ Builder.ext_buf_].
  unfold Parser.IsValid, Parser.new.
  cbn [Parser.ext_count_ Parser.ext_buf_].
  rewrite u8_id by lia. rewrite IsValid_loop. cbn [mbind option_bind].
  pose proof (lengths_sum_bound items Hok).
  rewrite !u16_id by lia.
  case_bool_decide as Hd.
  - apply Z.eqb_eq in Hd. by rewrite Hd.
  - apply Z.eqb_neq in Hd. by rewrite Hd.
Qed.

Lemma built_items_validate_witness :
  exists b,
    Builder.add_items [(1, 4); (2, 0)] (Builder.new [9; 9; 9; 9; 9; 9])
      = Some b /\
    Parser.IsValid
      (Parser.new (Builder.ext_count_ b) (Builder.ext_buf_ b)) 5
    = Some (bool_decide (lengths_sum [(1, 4); (2, 0)] = 5)).
Proof.
  apply (built_items_validate [(1, 4); (2, 0)] [9; 9; 9; 9; 9; 9] 5).
  - cbn. lia.
  - cbn. lia.
  - unfold items_ok. repeat constructor; cbn; lia.
  - lia.
Defined.

End ExtBuild.

(** ** The keeper, continued *)

Module KeeperMore.
Import Keeper KeeperFacts.

(** X12.  [Close] always leaves the session closed, and a second [Close]
    does nothing: on an open session the handle is closed once, the
    listener and both watcher maps are dropped and the reactor wait is
    cancelled; on a closed one nothing is touched. *)
Theorem Close_releases_once (st : Impl) :
  IsOpen (Close st).1 = false /\
  Close (Close st).1 = ((Close st).1, []) /\
  (IsOpen st = true ->
   Close st = (MkImpl None None ∅ ∅, [ZooClose; Cancel])) /\
  (IsOpen st = false -> Close st = (st, [])).
Proof.
  unfold Close, IsOpen. destruct (zh_ st) as [zh|] eqn:Hzh; cbn.
  - repeat split; intros; congruence.
  - rewrite Hzh. repeat split; intros; congruence.
Qed.

(** What one call does on an open session. *)
Lemma run_open o rc st :
  IsOpen st = true ->
  exists st' tr,
    run o rc st = Some (st', tr) /\
    zh_ st' = zh_ st /\ listener_ st' = listener_ st /\
    (forall path,
        default [] (node_watcher_ st' !! path)
        = default [] (node_watcher_ st !! path) ++ node_watch_of path (o, rc))
    /\
    (forall path,
        default [] (child_watcher_ st' !! path)
        = default [] (child_watcher_ st !! path)
            ++ child_watch_of path (o, rc)) /\
    invocations tr = (if IsOk rc then [] else [(callback_of o, rc)]) /\
    length (submissions tr) = 1%nat.
Proof.
  intros Hopen.
  assert (Hpush : forall (p path : string) (w : option nat)
                    (m : gmap string (list (option nat))),
    default [] (push_back_watcher p w m !! path)
    = default [] (m !! path) ++ (if bool_decide (p = path) then [w] else [])).
  { intros p path w m. case_bool_decide as Hp.
    - subst path. by rewrite push_back_watcher_lookup.
    - rewrite push_back_watcher_lookup_ne by done. by rewrite app_nil_r. }
  destruct o; cbn [run callback_of];
    try (unfold AddAuth, Create, Delete, Exists, Get, Set_, GetAcl, SetAcl,
           GetChildren, GetChildrenWithStat;
         rewrite Hopen; cbn [negb]; cbv zeta;
         unfold node_watch_of, child_watch_of;
         cbn [fst snd]; destruct (IsOk rc); cbn [andb];
         eexists _, _; (split; [reflexivity|]);
         cbn [zh_ listener_ node_watcher_ child_watcher_];
         repeat split; intros; rewrite ?Hpush, ?app_nil_r; reflexivity).
  rewrite Multi_open by exact Hopen.
  unfold node_watch_of, child_watch_of; cbn [fst snd].
  eexists _, _; split; [reflexivity|].
  repeat split; intros; rewrite ?app_nil_r; try reflexivity;
    by destruct (IsOk rc).
Qed.

Lemma run_closed o rc st :
  IsOpen st = false ->
  run o rc st = Some (st, [Invoke (callback_of o) kInvalidState]).
Proof.
  intros Hopen. destruct o; cbn [run callback_of];
    unfold AddAuth, Create, Delete, Exists, Get, Set_, GetAcl, SetAcl,
      GetChildren, GetChildrenWithStat, Multi;
    by rewrite Hopen.
Qed.

(** The first call, then the others. *)
Lemma run_all_acc calls st0 tr0 :
  foldl (fun acc c =>
           '(st1, tr) ← acc;
           '(st2, tr') ← run c.1 c.2 st1;
           Some (st2, tr ++ tr'))
        (Some (st0, tr0)) calls
  = '(st', tr) ← run_all calls st0; Some (st', tr0 ++ tr).
Proof.
  unfold run_all. revert st0 tr0.
  induction calls as [|c calls IH]; intros st0 tr0.
  - cbn. by rewrite app_nil_r.
  - cbn [foldl]. cbn [mbind option_bind].
    destruct (run c.1 c.2 st0) as [[st1 tr1]|]; cbn [mbind option_bind].
    + rewrite (IH st1 (tr0 ++ tr1)), (IH st1 ([] ++ tr1)).
      destruct (foldl _ (Some (st1, [])) calls) as [[st2 tr2]|];
        cbn [mbind option_bind]; [|reflexivity].
      by rewrite app_assoc.
    + clear IH. induction calls as [|c' calls IH']; [reflexivity|].
      cbn [foldl mbind option_bind]. exact IH'.
Qed.

Lemma run_all_cons c calls st :
  run_all (c :: calls) st
  = '(st1, tr1) ← run c.1 c.2 st;
    '(st2, tr2) ← run_all calls st1;
    Some (st2, tr1 ++ tr2).
Proof.
  unfold run_all at 1. cbn [foldl mbind option_bind].
  destruct (run c.1 c.2 st) as [[st1 tr1]|]; cbn [mbind option_bind].
  - cbn [app]. apply run_all_acc.
  - induction calls as [|c' calls IH]; [reflexivity|].
    cbn [foldl mbind option_bind]. exact IH.
Qed.

Lemma invocations_app tr1 tr2 :
  invocations (tr1 ++ tr2) = invocations tr1 ++ invocations tr2.
Proof. unfold invocations. apply omap_app. Qed.

Lemma submissions_app tr1 tr2 :
  submissions (tr1 ++ tr2) = submissions tr1 ++ submissions tr2.
Proof. unfold submissions. apply omap_app. Qed.

Lemma run_all_open calls st :
  IsOpen st = true ->
  exists st' tr,
    run_all calls st = Some (st', tr) /\
    zh_ st' = zh_ st /\ listener_ st' = listener_ st /\
    (forall path,
        default [] (node_watcher_ st' !! path)
        = default [] (node_watcher_ st !! path)
            ++ flat_map (node_watch_of path) calls) /\
    (forall path,
        default [] (child_watcher_ st' !! path)
        = default [] (child_watcher_ st !! path)
            ++ flat_map (child_watch_of path) calls) /\
    invocations tr = refused calls /\
    length (submissions tr) = length calls.
Proof.
  revert st. induction calls as [|[o rc] calls IH]; intros st Hopen.
  - exists st, []. cbn. repeat split; intros; by rewrite ?app_nil_r.
  - destruct (run_open o rc st Hopen)
      as (st1 & tr1 & Hrun & Hzh & Hl & Hn & Hc & Hi & Hs).
    assert (Hopen1 : IsOpen st1 = true)
      by (unfold IsOpen in *; by rewrite Hzh).
    destruct (IH st1 Hopen1)
      as (st2 & tr2 & Hrun2 & Hzh2 & Hl2 & Hn2 & Hc2 & Hi2 & Hs2).
    exists st2, (tr1 ++ tr2).
    rewrite run_all_cons. cbn [fst snd]. rewrite Hrun.
    cbn [mbind option_bind]. rewrite Hrun2. cbn [mbind option_bind].
    split; [reflexivity|].
    split; [congruence|]. split; [congruence|].
    split; [|split; [|split]].
    + intros path. rewrite Hn2, Hn. cbn [flat_map]. by rewrite app_assoc.
    + intros path. rewrite Hc2, Hc. cbn [flat_map]. by rewrite app_assoc.
    + rewrite invocations_app, Hi, Hi2. unfold refused. cbn [omap list_omap fst snd].
      by destruct (IsOk rc).
    + rewrite submissions_app, length_app, Hs, Hs2. reflexivity.
Qed.

(** X13.  On an open session, after any sequence of operation calls the
    node-watcher list of every path is its former list followed by the
    watchers of the accepted [Exists] and [Get] calls on that path, in call
    order; likewise the child-watcher lists with [GetChildren] and
    [GetChildrenWithStat].  No call removes or reorders a watcher. *)
Theorem watchers_in_call_order (calls : list (operation * Status))
    (st : Impl) :
  IsOpen st = true ->
  exists st' tr,
    run_all calls st = Some (st', tr) /\
    (forall path,
        default [] (node_watcher_ st' !! path)
        = default [] (node_watcher_ st !! path)
            ++ flat_map (node_watch_of path) calls) /\
    (forall path,
        default [] (child_watcher_ st' !! path)
        = default [] (child_watcher_ st !! path)
            ++ flat_map (child_watch_of path) calls).
Proof.
  intros Hopen.
  destruct (run_all_open calls st Hopen)
    as (st' & tr & Hrun & _ & _ & Hn & Hc & _).
  by exists st', tr.
Qed.

Lemma watchers_in_call_order_witness :
  let st := MkImpl (Some (ZHandle ZOK)) None ∅ ∅ in
  let calls := [(OpGet "/a" (Some 1%nat) 5%nat, 0);
                (OpExists "/a" None 6%nat, -4);
                (OpExists "/a" (Some 2%nat) 7%nat, 0)] in
  exists st' tr,
    run_all calls st = Some (st', tr) /\
    (forall path,
        default [] (node_watcher_ st' !! path)
        = default [] (node_watcher_ st !! path)
            ++ flat_map (node_watch_of path) calls) /\
    (forall path,
        default [] (child_watcher_ st' !! path)
        = default [] (child_watcher_ st !! path)
            ++ flat_map (child_watch_of path) calls).
Proof. apply watchers_in_call_order. reflexivity. Defined.

(** X14.  On an open session, any sequence of operation calls runs to its
    end, keeps the handle and the listener, submits exactly one foreign
    request per call, and invokes synchronously the callbacks of the
    refused submissions only, each once with its code, in call order. *)
Theorem open_session_calls (calls : list (operation * Status)) (st : Impl) :
  IsOpen st = true ->
  exists st' tr,
    run_all calls st = Some (st', tr) /\
    zh_ st' = zh_ st /\ listener_ st' = listener_ st /\
    invocations tr = refused calls /\
    length (submissions tr) = length calls.
Proof.
  intros Hopen.
  destruct (run_all_open calls st Hopen)
    as (st' & tr & Hrun & Hzh & Hl & _ & _ & Hi & Hs).
  by exists st', tr.
Qed.

Lemma open_session_calls_witness :
  let st := MkImpl (Some (ZHandle ZOK)) None ∅ ∅ in
  let calls := [(OpGet "/a" (Some 1%nat) 5%nat, 0);
                (OpDelete "/a" 3 6%nat, -4)] in
  exists st' tr,
    run_all calls st = Some (st', tr) /\
    zh_ st' = zh_ st /\ listener_ st' = listener_ st /\
    invocations tr = refused calls /\
    length (submissions tr) = length calls.
Proof. apply open_session_calls. reflexivity. Defined.

(** X15.  On a closed session, any sequence of operation calls leaves the
    adapter unchanged, submits nothing to the foreign library and invokes
    the callback of every call, in order, with [kInvalidState]. *)
Theorem closed_session_calls (calls : list (operation * Status))
    (st : Impl) :
  IsOpen st = false ->
  exists tr,
    run_all calls st = Some (st, tr) /\
    submissions tr = [] /\
    invocations tr = (fun c => (callback_of c.1, kInvalidState)) <$> calls.
Proof.
  intros Hopen. induction calls as [|[o rc] calls (tr & Hrun & Hs & Hi)].
  - by exists [].
  - exists (Invoke (callback_of o) kInvalidState :: tr).
    rewrite run_all_cons. cbn [fst snd]. rewrite run_closed by exact Hopen.
    cbn [mbind option_bind]. rewrite Hrun. cbn [mbind option_bind].
    split; [reflexivity|]. split.
    + exact Hs.
    + cbn. by rewrite <- Hi.
Qed.

Lemma closed_session_calls_witness :
  let st := new (Some 9%nat) in
  let calls := [(OpGet "/a" (Some 1%nat) 5%nat, 0);
                (OpDelete "/a" 3 6%nat, -4)] in
  exists tr,
    run_all calls st = Some (st, tr) /\
    submissions tr = [] /\
    invocations tr = (fun c => (callback_of c.1, kInvalidState)) <$> calls.
Proof. apply closed_session_calls. reflexivity. Defined.

End KeeperMore.

Module KeeperLoop.
Import Keeper KeeperFacts KeeperMore.

Section Loop.
Variables kReadable kWritable : Z.

Lemma UpdateEvent_bad ireply st :
  IsOpen st = true -> IsBadArguments (ir_status ireply) = true ->
  UpdateEvent kReadable kWritable ireply st = None.
Proof.
  intros Hopen Hbad. unfold UpdateEvent, Interest. rewrite Hopen. cbn [negb].
  rewrite Hbad.
  assert (IsOk (ir_status ireply) = false) as ->.
  { unfold IsOk, IsBadArguments, kBadArguments, ZOK in *.
    apply Z.eqb_eq in Hbad. rewrite Hbad. reflexivity. }
  reflexivity.
Qed.

(** X16.  [Open] on a closed adapter, with a timeout that is not negative,
    when [zookeeper_init] gives a handle: the call returns true, the
    session is open on that handle with listener and watcher maps
    unchanged, and exactly one reactor wait has been armed; a [Close] right
    after it closes the handle and cancels that wait. *)
Theorem Open_success (dest : string) (timeout : Z) (reply : init_reply)
    (ireply : interest_reply) (st : Impl) (zh : zhandle_t) :
  IsOpen st = false -> 0 <= timeout -> init_zh reply = Some zh ->
  IsBadArguments (ir_status ireply) = false ->
  let st1 := MkImpl (Some zh) (listener_ st) (node_watcher_ st)
               (child_watcher_ st) in
  exists fd events t,
    Open kReadable kWritable dest timeout reply ireply st
      = Some (st1, true, [AsyncWait fd events t]) /\
    IsOpen st1 = true /\
    Close st1 = (MkImpl None None ∅ ∅, [ZooClose; Cancel]).
Proof.
  intros Hopen Ht Hzh Hbad st1. unfold Open. rewrite Hopen, Hzh.
  destruct (Z.ltb_spec timeout 0); [lia|].
  destruct (UpdateEvent_arms kReadable kWritable ireply st1 Hbad)
    as (fd & ev & t & Hu).
  exists fd, ev, t. fold st1. rewrite Hu. done.
Qed.

(** X17.  [Open] stops the process exactly when the adapter is already
    open, the timeout is negative, [zookeeper_init] fails with [errno] 0 or
    [ENOMEM], or the first interest query answers bad-arguments.  When it
    returns false, initialisation has failed, the adapter is unchanged and
    nothing has been armed. *)
Theorem Open_stops_or_reports (dest : string) (timeout : Z)
    (reply : init_reply) (ireply : interest_reply) (st : Impl) :
  (Open kReadable kWritable dest timeout reply ireply st = None <->
     IsOpen st = true \/ timeout < 0 \/
     (init_zh reply = None /\
      (init_errno reply = 0 \/ init_errno reply = ENOMEM)) \/
     (is_Some (init_zh reply) /\
      IsBadArguments (ir_status ireply) = true)) /\
  (forall st' tr,
     Open kReadable kWritable dest timeout reply ireply st
       = Some (st', false, tr) ->
     st' = st /\ tr = [] /\ init_zh reply = None).
Proof.
  unfold Open. destruct (IsOpen st) eqn:Hopen.
  { split; [split; [auto|done]|intros; discriminate]. }
  destruct (Z.ltb_spec timeout 0) as [Ht|Ht].
  { split; [split; [auto|done]|intros; discriminate]. }
  destruct (init_zh reply) as [zh|] eqn:Hzh.
  - set (st1 := MkImpl (Some zh) (listener_ st) (node_watcher_ st)
                  (child_watcher_ st)).
    destruct (IsBadArguments (ir_status ireply)) eqn:Hbad.
    + rewrite UpdateEvent_bad by done. cbn [mbind option_bind].
      split; [split; [eauto 10|done]|intros; discriminate].
    + destruct (UpdateEvent_arms kReadable kWritable ireply st1 Hbad)
        as (fd & ev & t & ->). cbn [mbind option_bind].
      split; [split; [discriminate|]|intros ? ? [=]].
      intros [?|[?|[[? _]|[_ ?]]]]; (discriminate || lia).
  - destruct (Z.eqb_spec (init_errno reply) 0) as [H0|H0];
      destruct (Z.eqb_spec (init_errno reply) ENOMEM) as [H1|H1];
      cbn [negb andb].
    + split; [split; [auto 10|done]|intros; discriminate].
    + split; [split; [auto 10|done]|intros; discriminate].
    + split; [split; [auto 10|done]|intros; discriminate].
    + split; [split; [discriminate|]|by intros ? ? [= <- <-]].
      intros [?|[?|[[_ [?|?]]|[[? ?] _]]]]; (discriminate || lia).
Qed.

(** X18.  [HandleEvent] stops the process exactly when the session is open
    and either [zookeeper_process] answers bad-arguments, or the session is
    still open and recoverable afterwards and the interest query answers
    bad-arguments.  On a closed session it never does. *)
Theorem HandleEvent_stops_iff (events : Z) (preply : process_reply)
    (ireply : interest_reply) (st : Impl) :
  HandleEvent kReadable kWritable events preply ireply st = None <->
  IsOpen st = true /\
  (IsBadArguments (pr_status preply) = true \/
   (IsOpen (pr_after preply) = true /\
    IsUnrecoverable (pr_after preply) = Some false /\
    IsBadArguments (ir_status ireply) = true)).
Proof.
  unfold HandleEvent, Process.
  destruct (IsOpen st) eqn:Hopen; cbn [negb].
  2:{ change (IsBadArguments kInvalidState) with false.
      rewrite andb_false_r, Hopen. split; [discriminate|].
      intros [[=] _]. }
  destruct (IsBadArguments (pr_status preply)) eqn:Hbad.
  { assert (IsOk (pr_status preply) = false) as ->.
    { unfold IsOk, IsBadArguments, kBadArguments, ZOK in *.
      apply Z.eqb_eq in Hbad. by rewrite Hbad. }
    cbn [negb andb]. split; auto. }
  rewrite andb_false_r.
  destruct (IsOpen (pr_after preply)) eqn:Hopen1.
  2:{ split; [discriminate|]. intros [_ [[=]|[[=] _]]]. }
  unfold IsUnrecoverable. unfold IsOpen in Hopen1.
  destruct (zh_ (pr_after preply)) as [zh|] eqn:Hzh; [|discriminate].
  cbn [mbind option_bind].
  destruct (is_unrecoverable zh =? ZOK); cbn [negb].
  - destruct (IsBadArguments (ir_status ireply)) eqn:Hbi.
    + rewrite UpdateEvent_bad; [|by unfold IsOpen; rewrite Hzh|done].
      cbn [mbind option_bind]. split; auto.
    + destruct (UpdateEvent_arms kReadable kWritable ireply
                  (pr_after preply) Hbi) as (fd & ev & t & ->).
      cbn [mbind option_bind]. split; [discriminate|].
      intros [_ [[=]|(_ & _ & [=])]].
  - split; [discriminate|]. intros [_ [[=]|(_ & [=] & _)]].
Qed.

End Loop.

Lemma Open_success_witness :
  let st := new (Some 9%nat) in
  let st1 := MkImpl (Some (ZHandle ZOK)) (listener_ st) (node_watcher_ st)
               (child_watcher_ st) in
  exists fd events t,
    Open 1 2 "host:2181" 5000 (InitReply (Some (ZHandle ZOK)) 0)
      (InterestReply ZOK 3 ZOOKEEPER_READ 1000) st
      = Some (st1, true, [AsyncWait fd events t]) /\
    IsOpen st1 = true /\
    Close st1 = (MkImpl None None ∅ ∅, [ZooClose; Cancel]).
Proof.
  apply (Open_success 1 2 "host:2181" 5000 (InitReply (Some (ZHandle ZOK)) 0)
           (InterestReply ZOK 3 ZOOKEEPER_READ 1000) (new (Some 9%nat))
           (ZHandle ZOK)).
  - reflexivity.
  - lia.
  - reflexivity.
  - reflexivity.
Defined.

End KeeperLoop.

Module KeeperInv.
Import Keeper KeeperFacts KeeperMore KeeperLoop.

(** X19.  A closed adapter holds no watcher: this is so for a new adapter
    and is kept by [Close], by every operation call and by [Open]. *)
Theorem closed_adapter_holds_no_watcher :
  (forall listener, closed_empty (new listener)) /\
  (forall st, closed_empty st ->
     closed_empty (Close st).1 /\
     (forall o rc st' tr, run o rc st = Some (st', tr) -> closed_empty st') /\
     (forall kReadable kWritable dest timeout reply ireply st' ok tr,
        Open kReadable kWritable dest timeout reply ireply st
          = Some (st', ok, tr) -> closed_empty st')).
Proof.
  split; [done|]. intros st Hinv. split; [|split].
  - destruct (IsOpen st) eqn:Hopen.
    + by rewrite (proj1 (proj2 (proj2 (Close_releases_once st))) Hopen).
    + by rewrite (proj2 (proj2 (proj2 (Close_releases_once st))) Hopen).
  - intros o rc st' tr Hrun. destruct (IsOpen st) eqn:Hopen.
    + destruct (run_open o rc st Hopen) as (st1 & tr1 & Hrun1 & Hzh & _).
      rewrite Hrun in Hrun1. injection Hrun1 as <- <-.
      intros Hclosed. unfold IsOpen in Hopen, Hclosed. rewrite Hzh in Hclosed.
      congruence.
    + rewrite run_closed in Hrun by exact Hopen. by injection Hrun as <- <-.
  - intros kR kW dest timeout reply ireply st' ok tr. unfold Open.
    destruct (IsOpen st) eqn:Hopen; [discriminate|].
    destruct (timeout <? 0); [discriminate|].
    destruct (init_zh reply) as [zh|].
    + destruct (UpdateEvent _ _ _ _); [|discriminate].
      cbn [mbind option_bind]. intros [= <- <- <-]. intros [=].
    + destruct (_ && _); [|discriminate]. by intros [= <- <- <-].
Qed.

Section Loop.
Variables kReadable kWritable : Z.

Lemma land_flag_set a b :
  Z.land a b = 0 -> Z.land (Z.lor a b) a = a /\ Z.land (Z.lor a b) b = b.
Proof.
  intros H. rewrite !Z.land_lor_distr_l, !Z.land_diag.
  rewrite (Z.land_comm b a), H. by rewrite Z.lor_0_r, Z.lor_0_l.
Qed.

(** X20.  [UpdateEvent] on an open session whose interest query does not
    answer bad-arguments arms one wait on the descriptor the library gave.
    With [kReadable] and [kWritable] two non-zero flags without a common
    bit, the wait asks for readability exactly when the interest has
    [ZOOKEEPER_READ] and for writability exactly when it has
    [ZOOKEEPER_WRITE].  Its timeout is the library's when the query
    succeeded, zero included, and 100 ms when it failed. *)
Theorem UpdateEvent_wait (ireply : interest_reply) (st : Impl) :
  IsOpen st = true -> IsBadArguments (ir_status ireply) = false ->
  kReadable <> 0 -> kWritable <> 0 -> Z.land kReadable kWritable = 0 ->
  exists events,
    UpdateEvent kReadable kWritable ireply st
      = Some [AsyncWait (ir_fd ireply) events
                (if IsOk (ir_status ireply) then ir_tv ireply else 100)] /\
    (Z.land events kReadable <> 0 <->
       Z.land (ir_interest ireply) ZOOKEEPER_READ <> 0) /\
    (Z.land events kWritable <> 0 <->
       Z.land (ir_interest ireply) ZOOKEEPER_WRITE <> 0).
Proof.
  intros Hopen Hbad Hr Hw Hrw.
  destruct (land_flag_set kReadable kWritable Hrw) as [Hsr Hsw].
  unfold UpdateEvent, Interest. rewrite Hopen. cbn [negb]. rewrite Hbad.
  eexists. split.
  { destruct (IsOk (ir_status ireply)); cbn [mbind option_bind];
      reflexivity. }
  rewrite !Z.lor_0_l.
  destruct (Z.eqb_spec (Z.land (ir_interest ireply) ZOOKEEPER_READ) 0)
    as [Er|Er];
    destruct (Z.eqb_spec (Z.land (ir_interest ireply) ZOOKEEPER_WRITE) 0)
    as [Ew|Ew]; cbn [negb]; rewrite ?Z.lor_0_l, ?Z.land_0_l, ?Z.land_diag,
      ?Hsr, ?Hsw, ?Hrw, ?(Z.land_comm kWritable kReadable), ?Hrw;
    split; split; congruence.
Qed.

End Loop.

Lemma UpdateEvent_wait_witness :
  let ireply := InterestReply (-4) 3 ZOOKEEPER_WRITE 0 in
  let st := MkImpl (Some (ZHandle ZOK)) None ∅ ∅ in
  exists events,
    UpdateEvent 1 2 ireply st
      = Some [AsyncWait (ir_fd ireply) events
                (if IsOk (ir_status ireply) then ir_tv ireply else 100)] /\
    (Z.land events 1 <> 0 <->
       Z.land (ir_interest ireply) ZOOKEEPER_READ <> 0) /\
    (Z.land events 2 <> 0 <->
       Z.land (ir_interest ireply) ZOOKEEPER_WRITE <> 0).
Proof.
  apply (UpdateEvent_wait 1 2 (InterestReply (-4) 3 ZOOKEEPER_WRITE 0)
           (MkImpl (Some (ZHandle ZOK)) None ∅ ∅)).
  - reflexivity.
  - reflexivity.
  - lia.
  - lia.
  - reflexivity.
Defined.

End KeeperInv.
